(** * The layered configuration store of libgit2 (src/config.c)

    A shallow embedding of [config.c]: the registry of configuration
    backends ordered by priority, the single-backend read and write
    policy, the iteration over all backends, and the coercion of raw
    values to integers and booleans.

    Conventions of the embedding.
    - [int] is a 32-bit and [long int] a 64-bit two's complement integer
      (the LP64 data model); both are carried as [Z] and every arithmetic
      operation of the source wraps explicitly ([wrap]).
    - A C string is a [string]; [deref] reads the character a pointer
      into it points at, NUL at its end.
    - A function returning an error code and writing through an
      out-parameter returns a [result].
    - Objects are values: the store owns its entries and an entry owns
      its backend.  No property stated below depends on two pointers to
      one backend. *)

From Stdlib Require Import ZArith Ascii String Sorting.Sorted.
From stdpp Require Import base tactics option list sorting strings gmap.

Local Open Scope string_scope.
Local Open Scope Z_scope.

(** ** Error codes and results *)

(** The error codes of git2/errors.h that [config.c] raises or forwards,
    and [GIT_EOTHER] for any other code a backend may return.  All of
    them are negative integers; [GIT_SUCCESS] is zero. *)
Inductive git_error : Set :=
  | GIT_ENOMEM
  | GIT_EINVALIDARGS
  | GIT_EINVALIDTYPE
  | GIT_ENOTFOUND
  | GIT_EOSERR
  | GIT_EOTHER (code : Z).

Inductive result (A : Type) : Type :=
  | Ok (a : A)
  | Err (e : git_error).
Arguments Ok {A} a.
Arguments Err {A} e.

(** The status of a call without out-parameter. *)
Abbreviation status := (result unit).
Abbreviation OK := (Ok tt).

(** The integer status returned by [git_config_foreach] and by the
    callbacks it drives. *)
Definition GIT_SUCCESS : Z := 0.

(** Modelled from the spec: [git__throw] and [git__rethrow] of errors.c,
    which is not part of this development.  They attach a message, with
    the name of the variable, and pass the error code on unchanged. *)
Definition git__throw (e : git_error) : git_error := e.
Definition git__rethrow (e : git_error) : git_error := e.

(** ** Machine integers *)

(** The value of [z] in [w]-bit two's complement. *)
Definition wrap (w : Z) (z : Z) : Z :=
  (z + 2 ^ (w - 1)) mod 2 ^ w - 2 ^ (w - 1).

Definition INT_BITS : Z := 32.
Definition LONG_BITS : Z := 64.

Definition in_range (w : Z) (z : Z) : Prop :=
  - 2 ^ (w - 1) <= z < 2 ^ (w - 1).

Definition INT_MAX : Z := 2 ^ 31 - 1.
Definition INT_MIN : Z := - 2 ^ 31.

Definition int_sub (a b : Z) : Z := wrap INT_BITS (a - b).
Definition long_mul (a b : Z) : Z := wrap LONG_BITS (a * b).
Definition int_of_long (a : Z) : Z := wrap INT_BITS a.

(** ** C strings *)

Definition NUL : ascii := Ascii.zero.

Definition deref (p : string) : ascii :=
  match p with
  | EmptyString => NUL
  | String c _ => c
  end.

Definition char_code (c : ascii) : Z := Z.of_N (N_of_ascii c).

Definition tolower (c : ascii) : Z :=
  let n := char_code c in
  if (65 <=? n) && (n <=? 90) then n + 32 else n.

(** [strcasecmp] of the C library: the difference of the first pair of
    characters that differ once both are folded to lower case. *)
Fixpoint strcasecmp (a b : string) : Z :=
  match a, b with
  | EmptyString, EmptyString => 0
  | EmptyString, String cb _ => 0 - tolower cb
  | String ca _, EmptyString => tolower ca
  | String ca a', String cb b' =>
      if tolower ca =? tolower cb then strcasecmp a' b'
      else tolower ca - tolower cb
  end.

(** ** Integer literals *)

(** [git__strtol32] lives in util.c, which is not part of this
    development.  [config.c] is verified against its interface: the
    literal's value and the rest of the string ([num_end]) on success, an
    error code otherwise. *)
Class Strtol32 : Type :=
  git__strtol32 : string -> Z -> result (Z * string).

(** Modelled from the spec: a string that does not start with a literal
    is a type error. *)
Class Strtol32Spec `{Strtol32} : Prop := {
  strtol32_error : forall nptr base e,
    git__strtol32 nptr base = Err e -> e = GIT_EINVALIDTYPE
}.

(** ** Getters: coercion of raw values (config.c, lines 221-320) *)

Section Coercion.
Context `{Strtol32}.

Definition git_config__parse_long (name value : string) : result Z :=
  match git__strtol32 value 0 with
  | Err ret => Err (git__rethrow ret)
  | Ok (num, num_end) =>
      let c := deref num_end in
      if (c =? NUL)%char then Ok num
      else if (c =? "k")%char || (c =? "K")%char then
        Ok (long_mul num 1024)
      else if (c =? "m")%char || (c =? "M")%char then
        Ok (long_mul num (1024 * 1024))
      else if (c =? "g")%char || (c =? "G")%char then
        Ok (long_mul num (1024 * 1024 * 1024))
      else Err (git__throw GIT_EINVALIDTYPE)
  end.

Definition git_config__parse_int (name value : string) : result Z :=
  match git_config__parse_long name value with
  | Ok tmp => Ok (int_of_long tmp)
  | Err ret => Err ret
  end.

(** [out] is a C truth value: 1 for true, 0 for false. *)
Definition git_config__parse_bool (name : string) (value : option string)
  : result Z :=
  match value with
  | None => Ok 1 (* a missing value means true *)
  | Some value =>
      if (strcasecmp value "true" =? 0) ||
         (strcasecmp value "yes" =? 0) ||
         (strcasecmp value "on" =? 0) then Ok 1
      else if (strcasecmp value "false" =? 0) ||
              (strcasecmp value "no" =? 0) ||
              (strcasecmp value "off" =? 0) then Ok 0
      else
        match git_config__parse_int name value with
        | Ok out => Ok (if out =? 0 then 0 else 1)
        | Err error => Err (git__rethrow error)
        end
  end.
End Coercion.

(** An executable [git__strtol32], in four parts: the value of a digit
    (36 for a character that is a digit in no base), the run of digits,
    the sign, and the base announced by the prefix. *)
Definition digit_value (c : ascii) : Z :=
  let n := char_code c in
  if (48 <=? n) && (n <=? 57) then n - 48
  else if (97 <=? n) && (n <=? 122) then n - 97 + 10
  else if (65 <=? n) && (n <=? 90) then n - 65 + 10
  else 36.

Fixpoint strtol_digits (base : Z) (p : string) (n : Z) (ndig : nat)
  : Z * nat * string :=
  match p with
  | EmptyString => (n, ndig, p)
  | String c p' =>
      let v := digit_value c in
      if v <? base then strtol_digits base p' (n * base + v) (S ndig)
      else (n, ndig, p)
  end.

Definition strtol_sign (p : string) : bool * string :=
  match p with
  | String "-" p' => (true, p')
  | String "+" p' => (false, p')
  | _ => (false, p)
  end.

Definition strtol_base (p : string) (base : Z) : Z * string :=
  if base =? 0 then
    match p with
    | String "0" (String "x" p') => (16, p')
    | String "0" (String "X" p') => (16, p')
    | String "0" _ => (8, p)
    | _ => (10, p)
    end
  else (base, p).

(** Modelled from the spec: [git__strtol32] of util.c, which is not part
    of this development.  It reads a signed integer literal: an optional
    sign, then digits in base ten, or in base sixteen after [0x] or [0X],
    or in base eight after a leading [0].  It yields the value and the
    rest of the string; a string without a digit, or a value that the
    [long] it is stored in cannot hold, is a type error. *)
Definition strtol32_model (nptr : string) (base : Z) : result (Z * string) :=
  let '(neg, p) := strtol_sign nptr in
  let '(base, p) := strtol_base p base in
  let '(n, ndig, p) := strtol_digits base p 0 0 in
  let num := if neg then - n else n in
  match ndig with
  | O => Err GIT_EINVALIDTYPE
  | S _ =>
      if (- 2 ^ 63 <=? num) && (num <? 2 ^ 63) then Ok (num, p)
      else Err GIT_EINVALIDTYPE
  end.

(** ** Memory *)

(** The allocator is the one part of the environment whose answers the
    code cannot control.  A run is driven by the outcomes of the requests
    still to come (a request beyond the list succeeds); [brk] is the next
    address to hand out, so that two live blocks never share one. *)
Definition addr : Set := N.

Record allocator : Set := {
  brk : addr;
  outcomes : list bool
}.

(** Modelled from the spec: [git__malloc] of util.h, which is not part
    of this development.  It yields a fresh block, or NULL when the
    allocation fails. *)
Definition git__malloc (h : allocator) : option addr * allocator :=
  match outcomes h with
  | false :: o => (None, {| brk := brk h; outcomes := o |})
  | true :: o => (Some (brk h), {| brk := N.succ (brk h); outcomes := o |})
  | [] => (Some (brk h), {| brk := N.succ (brk h); outcomes := [] |})
  end.

(** ** Vectors *)

(** Modelled from the spec: the ordered container of vector.c, which is
    not part of this development.  The contents of a [git_vector] are a
    list.  [git_vector_init] yields an empty vector, [git_vector_insert]
    adds one element, and either may run out of memory, in which case the
    vector the caller holds is the one it had.  [git_vector_sort] orders
    the contents by the comparator installed at [git_vector_init]; it is
    passed explicitly here. *)
Class GitVector : Type := {
  git_vector_init : forall {A : Type},
    allocator -> result (list A) * allocator;
  git_vector_insert : forall {A : Type},
    list A -> A -> allocator -> result (list A) * allocator;
  git_vector_sort : forall {A : Type},
    (A -> A -> Z) -> list A -> list A
}.

(** The comparator [cmp] orders the elements of [l] consistently. *)
Definition cmp_total_on {A} (cmp : A -> A -> Z) (l : list A) : Prop :=
  forall x y, x ∈ l -> y ∈ l -> cmp x y <= 0 \/ cmp y x <= 0.

Definition cmp_trans_on {A} (cmp : A -> A -> Z) (l : list A) : Prop :=
  forall x y z, x ∈ l -> y ∈ l -> z ∈ l ->
    cmp x y <= 0 -> cmp y z <= 0 -> cmp x z <= 0.

(** Modelled from the spec: what the store expects of the container.  A
    new vector is empty, an insertion adds the element and nothing else,
    and sorting permutes the contents so that, whenever the comparator
    is a total preorder on them, no element is followed by one that
    compares strictly before it.  Nothing is promised about the relative
    order of elements that compare equal. *)
Class GitVectorSpec `{GitVector} : Prop := {
  git_vector_init_ok : forall A h (v : list A) h',
    git_vector_init h = (Ok v, h') -> v = [];
  git_vector_insert_ok : forall A (v : list A) x h v' h',
    git_vector_insert v x h = (Ok v', h') -> v' ≡ₚ x :: v;
  git_vector_sort_perm : forall A (cmp : A -> A -> Z) (v : list A),
    git_vector_sort cmp v ≡ₚ v;
  git_vector_sort_sorted : forall A (cmp : A -> A -> Z) (v : list A),
    cmp_total_on cmp v -> cmp_trans_on cmp v ->
    StronglySorted (fun x y => cmp x y <= 0) (git_vector_sort cmp v)
}.

(** An insertion sort driven by the sign of the comparator. *)
Fixpoint sort_insert {A} (cmp : A -> A -> Z) (x : A) (l : list A) : list A :=
  match l with
  | [] => [x]
  | y :: l' => if cmp x y <=? 0 then x :: l else y :: sort_insert cmp x l'
  end.

Fixpoint insertion_sort {A} (cmp : A -> A -> Z) (l : list A) : list A :=
  match l with
  | [] => []
  | x :: l' => sort_insert cmp x (insertion_sort cmp l')
  end.

(** Modelled from the spec: an executable vector.  Creation and
    insertion ask the allocator for room, insertion appends, and sorting
    is the insertion sort above. *)
Definition vector_model : GitVector := {|
  git_vector_init := fun A h =>
    match git__malloc h with
    | (None, h') => (Err GIT_ENOMEM, h')
    | (Some _, h') => (Ok [], h')
    end;
  git_vector_insert := fun A v x h =>
    match git__malloc h with
    | (None, h') => (Err GIT_ENOMEM, h')
    | (Some _, h') => (Ok (v ++ [x])%list, h')
    end;
  git_vector_sort := fun A cmp v => insertion_sort cmp v
|}.

(** ** Backends *)

(** A callback [fn] is called with a name and reads and updates its
    [data]. *)
Definition callback (D : Type) : Type := string -> D -> Z * D.

(** A [git_config_file] is a table of function pointers over a state the
    store never looks into.  [B] is that state; [file_get], [file_set]
    and [file_foreach] are the [get], [set] and [foreach] members.
    [file_keys] is not a member: it names the keys the backend holds, in
    the order its [foreach] enumerates them. *)
Class ConfigFile (B : Type) : Type := {
  file_get : B -> string -> result (option string);
  file_set : B -> string -> string -> status * B;
  file_foreach : forall {D : Type}, B -> callback D -> D -> Z * D;
  file_keys : B -> list string
}.

(** Calls [fn] on each key in turn and stops at the first call that does
    not return zero. *)
Fixpoint foreach_keys {D} (fn : callback D) (keys : list string) (data : D)
  : Z * D :=
  match keys with
  | [] => (GIT_SUCCESS, data)
  | k :: keys' =>
      let '(ret, data') := fn k data in
      if ret =? 0 then foreach_keys fn keys' data' else (ret, data')
  end.

(** Modelled from the spec: the backend capability contract.  [foreach]
    invokes the callback once per stored key ([file_keys], in the
    backend's own order), stops early and returns that value on the first
    nonzero result; a value that [set] reports as stored is the one [get]
    finds afterwards. *)
Class ConfigFileSpec (B : Type) `{ConfigFile B} : Prop := {
  file_foreach_keys : forall D (b : B) (fn : callback D) data,
    file_foreach b fn data = foreach_keys fn (file_keys b) data;
  file_get_set : forall (b b' : B) name value,
    file_set b name value = (OK, b') -> file_get b' name = Ok (Some value)
}.

(** Modelled from the spec: a backend that keeps its variables in a
    finite map.  A key bound to [None] is present with no assigned
    value. *)
Definition map_backend : ConfigFile (gmap string (option string)) := {|
  file_get := fun b name =>
    match b !! name with
    | Some value => Ok value
    | None => Err GIT_ENOTFOUND
    end;
  file_set := fun b name value => (OK, <[name := Some value]> b);
  file_foreach := fun D b fn data => foreach_keys fn (map_to_list b).*1 data;
  file_keys := fun b => (map_to_list b).*1
|}.

(** ** The store (config.c, lines 35-38 and 105-215, 345-357) *)

(** [file_cfg] is the [cfg] member of the backend: the store that owns
    it, once it is registered. *)
Record git_config_file (B : Type) : Type := {
  file_cfg : option addr;
  backend : B
}.
Arguments file_cfg {B} _.
Arguments backend {B} _.

(** The vector holds pointers to [file_internal] blocks; [entry] is the
    address of the block, the identity of the element. *)
Record file_internal (B : Type) : Type := {
  entry : addr;
  file : git_config_file B;
  priority : Z
}.
Arguments entry {B} _.
Arguments file {B} _.
Arguments priority {B} _.

(** [self] is the address of the store, the value a backend's [cfg]
    member takes when the store registers it. *)
Record git_config (B : Type) : Type := {
  self : addr;
  files : list (file_internal B)
}.
Arguments self {B} _.
Arguments files {B} _.

Definition config_backend_cmp {B} (bk_a bk_b : file_internal B) : Z :=
  int_sub (priority bk_b) (priority bk_a).

(** The assignment [internal->file->cfg = cfg], on the backend and on the
    element of the vector found at the address [internal]. *)
Definition set_cfg {B} (cfg : addr) (f : git_config_file B)
  : git_config_file B :=
  {| file_cfg := Some cfg; backend := backend f |}.

Definition set_cfg_at {B} (internal cfg : addr) (e : file_internal B)
  : file_internal B :=
  if (entry e =? internal)%N then
    {| entry := entry e; file := set_cfg cfg (file e); priority := priority e |}
  else e.

(** The sequence is in descending order of priority. *)
Definition sorted_desc {B} (v : list (file_internal B)) : Prop :=
  StronglySorted (fun a b => priority b <= priority a) v.

Section Store.
Context `{GitVector} {B : Type} `{ConfigFile B}.

Definition git_config_new (h : allocator) : result (git_config B) * allocator :=
  let '(cfg, h) := git__malloc h in
  match cfg with
  | None => (Err GIT_ENOMEM, h)
  | Some cfg =>
      let '(r, h) := git_vector_init h in
      match r with
      | Err _ => (* free(cfg) *) (Err GIT_ENOMEM, h)
      | Ok v => (Ok {| self := cfg; files := v |}, h)
      end
  end.

(** Returns the status, the store and the backend as the call leaves
    them, and the allocator. *)
Definition git_config_add_file (cfg : git_config B) (f : git_config_file B)
    (prio : Z) (h : allocator)
  : status * git_config B * git_config_file B * allocator :=
  let '(internal, h) := git__malloc h in
  match internal with
  | None => (Err GIT_ENOMEM, cfg, f, h)
  | Some internal =>
      let e := {| entry := internal; file := f; priority := prio |} in
      let '(r, h) := git_vector_insert (files cfg) e h in
      match r with
      | Err _ => (* free(internal) *) (Err GIT_ENOMEM, cfg, f, h)
      | Ok v =>
          let v := git_vector_sort config_backend_cmp v in
          (OK,
           {| self := self cfg;
              files := set_cfg_at internal (self cfg) <$> v |},
           set_cfg (self cfg) f, h)
      end
  end.

(** The loop of [git_config_foreach]: [l] holds the elements from index
    [i] on, [ret] the status so far. *)
Fixpoint foreach_loop {D} (l : list (file_internal B)) (fn : callback D)
    (ret : Z) (data : D) : Z * D :=
  match l with
  | [] => (ret, data)
  | internal :: l' =>
      if ret =? 0 then
        let '(ret, data) := file_foreach (backend (file internal)) fn data in
        foreach_loop l' fn ret data
      else (ret, data)
  end.

Definition git_config_foreach {D} (cfg : git_config B) (fn : callback D)
    (data : D) : Z * D :=
  foreach_loop (files cfg) fn GIT_SUCCESS data.

(** [files.length == 0] is the empty list; [git_vector_get (files, 0)] is
    its head.  The call of [set] updates the backend in place. *)
Definition git_config_set_string (cfg : git_config B) (name value : string)
  : status * git_config B :=
  match files cfg with
  | [] => (Err (git__throw GIT_EINVALIDARGS), cfg)
  | internal :: rest =>
      let f := file internal in
      let '(r, b) := file_set (backend f) name value in
      (r, {| self := self cfg;
             files := {| entry := entry internal;
                         file := {| file_cfg := file_cfg f; backend := b |};
                         priority := priority internal |} :: rest |})
  end.

Definition git_config_set_bool (cfg : git_config B) (name : string)
    (value : Z) : status * git_config B :=
  git_config_set_string cfg name (if value =? 0 then "false" else "true").

Definition git_config_get_string (cfg : git_config B) (name : string)
  : result (option string) :=
  match files cfg with
  | [] => Err (git__throw GIT_EINVALIDARGS)
  | internal :: _ => file_get (backend (file internal)) name
  end.

(** Every key the store holds, backend by backend in the order of the
    sequence. *)
Definition all_keys (cfg : git_config B) : list string :=
  concat ((fun internal => file_keys (backend (file internal))) <$> files cfg).

End Store.

(** A callback that returns zero on every key of [keys], taking its data
    from [data] to [data']. *)
Inductive all_zero {D} (fn : callback D) : list string -> D -> D -> Prop :=
  | all_zero_nil data : all_zero fn [] data data
  | all_zero_cons k keys data data1 data' :
      fn k data = (0, data1) ->
      all_zero fn keys data1 data' ->
      all_zero fn (k :: keys) data data'.

(** The stores the code can build: a new store, then any number of
    successful registrations. *)
Inductive reachable `{GitVector} {B} : git_config B -> Prop :=
  | reachable_new h cfg h' :
      git_config_new h = (Ok cfg, h') -> reachable cfg
  | reachable_add cfg f prio h cfg' f' h' :
      reachable cfg ->
      in_range INT_BITS prio ->
      git_config_add_file cfg f prio h = (OK, cfg', f', h') ->
      reachable cfg'.

(** ** Vocabulary of the statements *)

(** A well-formed C string holds no NUL before its end. *)
Fixpoint has_nul (s : string) : bool :=
  match s with
  | EmptyString => false
  | String c s' => (c =? NUL)%char || has_nul s'
  end.

(** The string with its upper-case letters folded to lower case. *)
Definition lower (c : ascii) : ascii := ascii_of_N (Z.to_N (tolower c)).

Fixpoint casefold (s : string) : string :=
  match s with
  | EmptyString => EmptyString
  | String c s' => String (lower c) (casefold s')
  end.

(** The factor a unit suffix stands for. *)
Definition unit_factor (c : ascii) : option Z :=
  if (c =? "k")%char || (c =? "K")%char then Some 1024
  else if (c =? "m")%char || (c =? "M")%char then Some (1024 * 1024)
  else if (c =? "g")%char || (c =? "G")%char then Some (1024 * 1024 * 1024)
  else None.

(** The callback [fn] with a log of the names it was invoked on. *)
Definition logged {D} (fn : callback D) : callback (list string * D) :=
  fun name st =>
    let '(ret, data) := fn name (snd st) in
    (ret, ((fst st ++ [name])%list, data)).

(** No difference of two of the priorities overflows an [int]. *)
Definition prio_fit (ps : list Z) : Prop :=
  forall p q, p ∈ ps -> q ∈ ps -> in_range INT_BITS (q - p).

(** The tokens [git_config__parse_bool] recognises. *)
Definition true_tokens : list string := ["true"; "yes"; "on"].
Definition false_tokens : list string := ["false"; "no"; "off"].

(** Registers the backends of [l], each with its priority, one after the
    other; stops at the first registration that fails. *)
Fixpoint add_files `{GitVector} {B} (cfg : git_config B)
    (l : list (git_config_file B * Z)) (h : allocator)
  : result (git_config B) * allocator :=
  match l with
  | [] => (Ok cfg, h)
  | (f, prio) :: l' =>
      match git_config_add_file cfg f prio h with
      | (Ok _, cfg', _, h') => add_files cfg' l' h'
      | (Err e, _, _, h') => (Err e, h')
      end
  end.

(** A new store with the backends of [l] registered in that order. *)
Definition build `{GitVector} {B} (l : list (git_config_file B * Z))
    (h : allocator) : result (git_config B) :=
  match git_config_new h with
  | (Ok cfg, h') => fst (add_files cfg l h')
  | (Err e, _) => Err e
  end.

(** An allocator that grants every request. *)
Definition plenty : allocator := {| brk := 1%N; outcomes := [] |}.

(** A backend not yet registered. *)
Definition unbound {B} (b : B) : git_config_file B :=
  {| file_cfg := None; backend := b |}.

(** A callback that counts its invocations in its data and asks to stop,
    with status 7, on the key [stop]. *)
Definition stop_at (stop : string) : callback Z :=
  fun name count => (if String.eqb name stop then 7 else 0, count + 1).

(** ** The rest of config.c: formatted setters, typed getters, teardown *)

(** The character of a decimal digit. *)
Definition digit_char (d : Z) : ascii := ascii_of_N (Z.to_N (48 + d)).

(** The decimal form of [n], most significant digit first, in front of
    [acc]; [fuel] bounds the number of digits. *)
Fixpoint fmt_decimal (fuel : nat) (n : Z) (acc : string) : string :=
  match fuel with
  | O => acc
  | S fuel' =>
      let acc' := String (digit_char (n mod 10)) acc in
      if n / 10 =? 0 then acc' else fmt_decimal fuel' (n / 10) acc'
  end.

(** The conversion [%ld] of the C library: a minus sign for a negative
    number, then its magnitude in decimal.  Twenty digits cover every
    64-bit magnitude. *)
Definition fmt_ld (value : Z) : string :=
  if value <? 0 then String "-" (fmt_decimal 20 (- value) "")
  else fmt_decimal 20 value "".

(** [snprintf (str, size, "%ld", value)]: at most [size - 1] characters
    of the conversion are stored. *)
Definition snprintf_ld (size : nat) (value : Z) : string :=
  substring 0 (size - 1) (fmt_ld value).

(** The calls [git_config_free] makes, in order. *)
Inductive release (B : Type) : Type :=
  | FreeFile (f : git_config_file B)
  | FreeBlock (p : addr)
  | FreeVector.
Arguments FreeFile {B} f.
Arguments FreeBlock {B} p.
Arguments FreeVector {B}.

Section Rest.
Context `{Strtol32} {B : Type} `{ConfigFile B}.

(** [file->free (file)] then [free (internal)] for each element, then
    [git_vector_free] and [free (cfg)]. *)
Definition git_config_free (cfg : git_config B) : list (release B) :=
  (concat ((fun internal =>
              [FreeFile (file internal); FreeBlock (entry internal)])
             <$> files cfg)
   ++ [FreeVector; FreeBlock (self cfg)])%list.

Definition git_config_set_long (cfg : git_config B) (name : string)
    (value : Z) : status * git_config B :=
  let str_value := snprintf_ld 32 value in
  git_config_set_string cfg name str_value.

Definition git_config_set_int (cfg : git_config B) (name : string)
    (value : Z) : status * git_config B :=
  git_config_set_long cfg name value.

(** [None]: the key is present without a value, and the null pointer is
    handed to [git__strtol32], which the code does not guard against. *)
Definition git_config_get_long (cfg : git_config B) (name : string)
  : option (result Z) :=
  match git_config_get_string cfg name with
  | Err ret => Some (Err (git__rethrow ret))
  | Ok None => None
  | Ok (Some value) => Some (git_config__parse_long name value)
  end.

Definition git_config_get_int (cfg : git_config B) (name : string)
  : option (result Z) :=
  match git_config_get_string cfg name with
  | Err ret => Some (Err (git__rethrow ret))
  | Ok None => None
  | Ok (Some value) => Some (git_config__parse_int name value)
  end.

Definition git_config_get_bool (cfg : git_config B) (name : string)
  : result Z :=
  match git_config_get_string cfg name with
  | Err error => Err (git__rethrow error)
  | Ok value => git_config__parse_bool name value
  end.

(** [getenv] is the environment of the process. *)
Definition git_config_get_env_bool (getenv : string -> option string)
    (name : string) : result Z :=
  match getenv name with
  | None => Err (git__rethrow GIT_ENOTFOUND)
  | Some value => git_config__parse_bool name (Some value)
  end.

End Rest.

(** The backends whose [free] a teardown calls, in order. *)
Definition freed_backends {B} (rs : list (release B)) : list B :=
  omap (fun r => match r with FreeFile f => Some (backend f) | _ => None end)
       rs.

(** What a registration looks at in an entry. *)
Definition registered {B} (e : file_internal B) : Z * B :=
  (priority e, backend (file e)).

(** The number a string of decimal digits denotes, after [acc]; [None]
    when a character is not a decimal digit. *)
Fixpoint dec_digits (s : string) (acc : Z) : option Z :=
  match s with
  | EmptyString => Some acc
  | String c s' =>
      let v := digit_value c in
      if v <? 10 then dec_digits s' (acc * 10 + v) else None
  end.

(** The number a decimal numeral denotes: a minus sign or none, then at
    least one digit. *)
Definition decimal_value (s : string) : option Z :=
  match s with
  | EmptyString => None
  | String "-" EmptyString => None
  | String "-" s' => Z.opp <$> dec_digits s' 0
  | _ => dec_digits s 0
  end.

(** [git__strtol32] reads the decimal numeral of every [int] back, to
    its end. *)
Definition reads_decimal `{Strtol32} : Prop :=
  forall value, in_range INT_BITS value ->
    git__strtol32 (fmt_ld value) 0 = Ok (value, "").

(** * Properties *)

(** ** Machine integers *)

Lemma wrap_int_in_range z : in_range INT_BITS z -> wrap INT_BITS z = z.
Proof.
  unfold in_range, wrap, INT_BITS. simpl Z.sub.
  change (2 ^ 31) with 2147483648. change (2 ^ 32) with 4294967296.
  intros Hz. rewrite Z.mod_small; lia.
Qed.

Lemma wrap_long_in_range z : in_range LONG_BITS z -> wrap LONG_BITS z = z.
Proof.
  unfold in_range, wrap, LONG_BITS. simpl Z.sub.
  change (2 ^ 63) with 9223372036854775808.
  change (2 ^ 64) with 18446744073709551616.
  intros Hz. rewrite Z.mod_small; lia.
Qed.

Lemma long_mul_fits num k :
  in_range LONG_BITS (num * k) -> long_mul num k = num * k.
Proof. apply wrap_long_in_range. Qed.

Lemma int_sub_in_range a b : in_range INT_BITS (a - b) -> int_sub a b = a - b.
Proof. apply wrap_int_in_range. Qed.

(** ** The models meet their interfaces *)

Lemma strtol32_model_spec : @Strtol32Spec strtol32_model.
Proof.
  split; unfold git__strtol32, strtol32_model; intros nptr base e.
  destruct (strtol_sign nptr) as [neg p].
  destruct (strtol_base p base) as [base' p'].
  destruct (strtol_digits base' p' 0 0) as [[n ndig] q].
  destruct ndig; [congruence|].
  destruct (andb _ _); congruence.
Qed.

Lemma map_backend_spec : @ConfigFileSpec _ map_backend.
Proof.
  split.
  - reflexivity.
  - intros b b' name value. simpl. intros [= <-].
    by rewrite lookup_insert_eq.
Qed.

(** Membership in an explicit list. *)
Ltac mem := rewrite ?elem_of_cons in *; tauto.

Section InsertionSort.
Context {A : Type} (cmp : A -> A -> Z).

Lemma sort_insert_perm x l : sort_insert cmp x l ≡ₚ x :: l.
Proof.
  induction l as [|y l IH]; simpl; [done|].
  destruct (cmp x y <=? 0); [done|].
  rewrite IH. apply Permutation_swap.
Qed.

Lemma insertion_sort_perm l : insertion_sort cmp l ≡ₚ l.
Proof.
  induction l as [|x l IH]; simpl; [done|].
  by rewrite sort_insert_perm, IH.
Qed.

Lemma sort_insert_sorted x l :
  cmp_total_on cmp (x :: l) -> cmp_trans_on cmp (x :: l) ->
  StronglySorted (fun a b => cmp a b <= 0) l ->
  StronglySorted (fun a b => cmp a b <= 0) (sort_insert cmp x l).
Proof.
  intros Htot Htr. induction 1 as [|y l Hs IH Hy]; simpl.
  - repeat constructor.
  - destruct (Z.leb_spec (cmp x y) 0) as [Hxy|Hxy].
    + constructor; [by constructor|].
      constructor; [done|].
      rewrite Forall_forall in Hy |- *. intros z Hz.
      apply (Htr x y z); [mem | mem | mem | done | by apply Hy].
    + constructor.
      * apply IH.
        -- intros a b Ha Hb. apply Htot; mem.
        -- intros a b c Ha Hb Hc. apply Htr; mem.
      * rewrite Forall_forall in Hy |- *. intros z Hz.
        rewrite sort_insert_perm in Hz.
        apply elem_of_cons in Hz as [->|Hz]; [|by apply Hy].
        destruct (Htot x y) as [?|?]; [mem..|lia|done].
Qed.

Lemma insertion_sort_sorted l :
  cmp_total_on cmp l -> cmp_trans_on cmp l ->
  StronglySorted (fun a b => cmp a b <= 0) (insertion_sort cmp l).
Proof.
  induction l as [|x l IH]; simpl; intros Htot Htr; [constructor|].
  apply sort_insert_sorted.
  - intros a b Ha Hb. rewrite insertion_sort_perm in Ha, Hb. by apply Htot.
  - intros a b c Ha Hb Hc. rewrite insertion_sort_perm in Ha, Hb, Hc.
    by apply Htr.
  - apply IH.
    + intros a b Ha Hb. apply Htot; mem.
    + intros a b c Ha Hb Hc. apply Htr; mem.
Qed.

End InsertionSort.

Lemma vector_model_spec : @GitVectorSpec vector_model.
Proof.
  split.
  - intros A h v h'. simpl. destruct (git__malloc h) as [[?|] ?]; congruence.
  - intros A v x h v' h'. simpl.
    destruct (git__malloc h) as [[?|] ?]; [|congruence].
    intros [= <- _]. by rewrite Permutation_app_comm.
  - intros A cmp v. apply insertion_sort_perm.
  - intros A cmp v. apply insertion_sort_sorted.
Qed.

(** ** C strings and case folding *)

Lemma char_code_lower c : char_code (lower c) = tolower c.
Proof. destruct c as [[] [] [] [] [] [] [] []]; reflexivity. Qed.

Lemma tolower_zero c : tolower c = 0 -> c = NUL.
Proof. destruct c as [[] [] [] [] [] [] [] []]; vm_compute; congruence. Qed.

Lemma tolower_eq_lower ca cb : tolower ca = tolower cb <-> lower ca = lower cb.
Proof.
  split; intros E.
  - unfold lower. by rewrite E.
  - by rewrite <- !char_code_lower, E.
Qed.

Lemma has_nul_cons c s :
  has_nul (String c s) = false -> c <> NUL /\ has_nul s = false.
Proof.
  simpl. intros [Hc Hs]%orb_false_elim. split; [|done].
  by apply Ascii.eqb_neq.
Qed.

Lemma has_nul_casefold s : has_nul (casefold s) = has_nul s.
Proof.
  induction s as [|c s IH]; simpl; [done|]. rewrite IH. f_equal.
  destruct c as [[] [] [] [] [] [] [] []]; reflexivity.
Qed.

(** On well-formed strings [strcasecmp] returns zero exactly when the two
    strings are equal up to the case of their letters. *)
Lemma strcasecmp_casefold a b :
  has_nul a = false -> has_nul b = false ->
  strcasecmp a b = 0 <-> casefold a = casefold b.
Proof.
  revert b. induction a as [|ca a IH]; intros [|cb b] Ha Hb; simpl.
  - done.
  - apply has_nul_cons in Hb as [Hb _]. split; [|done].
    intros E. destruct Hb. apply tolower_zero. lia.
  - apply has_nul_cons in Ha as [Ha _]. split; [|done].
    intros E. destruct Ha. by apply tolower_zero.
  - apply has_nul_cons in Ha as [_ Ha]. apply has_nul_cons in Hb as [_ Hb].
    destruct (Z.eqb_spec (tolower ca) (tolower cb)) as [E|E].
    + rewrite (IH b Ha Hb). apply tolower_eq_lower in E. rewrite E.
      split; [by intros ->|by intros [= ->]].
    + split; [lia|]. intros [= E' _]. by apply tolower_eq_lower in E'.
Qed.

Lemma strcasecmp_token value tok :
  has_nul value = false -> has_nul tok = false -> casefold tok = tok ->
  (strcasecmp value tok =? 0) = bool_decide (casefold value = tok).
Proof.
  intros Hv Ht Hc. pose proof (strcasecmp_casefold value tok Hv Ht) as E.
  rewrite Hc in E. case_bool_decide as D.
  - apply Z.eqb_eq. by apply E.
  - apply Z.eqb_neq. by rewrite E.
Qed.

(** The six tests of [git_config__parse_bool], on a well-formed value. *)
Lemma parse_bool_tests value :
  has_nul value = false ->
  ((strcasecmp value "true" =? 0) || (strcasecmp value "yes" =? 0) ||
     (strcasecmp value "on" =? 0) = bool_decide (casefold value ∈ true_tokens))
  /\ ((strcasecmp value "false" =? 0) || (strcasecmp value "no" =? 0) ||
     (strcasecmp value "off" =? 0) = bool_decide (casefold value ∈ false_tokens)).
Proof.
  intros Hv. rewrite !(strcasecmp_token value) by done.
  unfold true_tokens, false_tokens.
  split; repeat case_bool_decide; try done; exfalso;
    rewrite ?elem_of_cons, ?elem_of_nil in *; tauto.
Qed.

Lemma token_no_nul value :
  casefold value ∈ (true_tokens ++ false_tokens)%list ->
  has_nul value = false.
Proof.
  intros Hin. rewrite <- has_nul_casefold.
  unfold true_tokens, false_tokens in Hin. simpl in Hin.
  rewrite ?elem_of_cons, elem_of_nil in Hin.
  destruct Hin as [->|[->|[->|[->|[->|[->|[]]]]]]]; reflexivity.
Qed.

(** ** Coercion of raw values *)

Section CoercionProperties.
Context `{Hspec : Strtol32Spec}.

Lemma parse_long_end name value num num_end :
  git__strtol32 value 0 = Ok (num, num_end) ->
  deref num_end = NUL ->
  git_config__parse_long name value = Ok num.
Proof.
  intros Hlit Hc. unfold git_config__parse_long. by rewrite Hlit, Hc.
Qed.

(** The character after the literal decides alone: what follows a unit
    suffix is not looked at.  The product is the one of the integers as
    long as a [long] holds it. *)
Lemma parse_long_suffix name value num num_end factor :
  git__strtol32 value 0 = Ok (num, num_end) ->
  unit_factor (deref num_end) = Some factor ->
  in_range LONG_BITS (num * factor) ->
  git_config__parse_long name value = Ok (num * factor).
Proof.
  intros Hlit Hc Hfit. unfold git_config__parse_long. rewrite Hlit.
  unfold unit_factor in Hc. cbv zeta.
  destruct (Ascii.eqb_spec (deref num_end) NUL) as [E|_].
  { rewrite E in Hc. discriminate. }
  repeat (destruct (orb _ _); [injection Hc as <-;
    by rewrite long_mul_fits|]).
  discriminate.
Qed.

Lemma parse_long_invalid name value num num_end :
  git__strtol32 value 0 = Ok (num, num_end) ->
  deref num_end <> NUL ->
  unit_factor (deref num_end) = None ->
  git_config__parse_long name value = Err GIT_EINVALIDTYPE.
Proof.
  intros Hlit Hn Hc. unfold git_config__parse_long. rewrite Hlit.
  unfold unit_factor in Hc. cbv zeta.
  destruct (Ascii.eqb_spec (deref num_end) NUL) as [E|_]; [done|].
  repeat (destruct (orb _ _); [discriminate|]). done.
Qed.

Lemma parse_long_literal_error name value e :
  git__strtol32 value 0 = Err e ->
  git_config__parse_long name value = Err GIT_EINVALIDTYPE.
Proof.
  intros Hlit. unfold git_config__parse_long. rewrite Hlit.
  by rewrite (strtol32_error _ _ _ Hlit).
Qed.

Lemma parse_long_error name value e :
  git_config__parse_long name value = Err e -> e = GIT_EINVALIDTYPE.
Proof.
  unfold git_config__parse_long.
  destruct (git__strtol32 value 0) as [[num num_end]|e'] eqn:Hlit.
  - cbv zeta. repeat (destruct (_ : bool); [discriminate|]).
    by intros [= <-].
  - intros [= <-]. apply (strtol32_error _ _ _ Hlit).
Qed.

(** The scaling that holds: a value made of a literal that
    [git__strtol32] reads as [num], followed by exactly one unit suffix,
    parses to [num] times 1024 for [k] or [K], times 1024 * 1024 for [m]
    or [M], times 1024 * 1024 * 1024 for [g] or [G], as long as a
    [long] holds the product; a value made of the literal alone parses
    to [num] itself. *)
Theorem git_config__parse_long_units (name value : string) (num : Z) :
  (git__strtol32 value 0 = Ok (num, "") ->
     git_config__parse_long name value = Ok num)
  /\ (forall c : ascii,
        git__strtol32 value 0 = Ok (num, String c "") ->
        (c = "k"%char \/ c = "K"%char ->
           in_range LONG_BITS (num * 1024) ->
           git_config__parse_long name value = Ok (num * 1024))
        /\ (c = "m"%char \/ c = "M"%char ->
           in_range LONG_BITS (num * (1024 * 1024)) ->
           git_config__parse_long name value = Ok (num * (1024 * 1024)))
        /\ (c = "g"%char \/ c = "G"%char ->
           in_range LONG_BITS (num * (1024 * 1024 * 1024)) ->
           git_config__parse_long name value
             = Ok (num * (1024 * 1024 * 1024)))).
Proof.
  split.
  - intros Hlit. by apply (parse_long_end _ _ _ "").
  - intros c Hlit.
    repeat split; (intros [-> | ->] Hfit);
      by apply (parse_long_suffix _ _ _ _ _ Hlit).
Qed.

(** An absent value is true; a value that is, up to case, one of
    true, yes, on is true, and one of false, no, off is false; any
    other value is parsed as an integer by [git_config__parse_int] and
    is true exactly when that integer is not zero; and
    [git_config__parse_bool] fails, with a type error, exactly when
    that integer parse fails. *)
Theorem git_config__parse_bool_spec (name : string) :
  git_config__parse_bool name None = Ok 1
  /\ (forall value, casefold value ∈ true_tokens ->
        git_config__parse_bool name (Some value) = Ok 1)
  /\ (forall value, casefold value ∈ false_tokens ->
        git_config__parse_bool name (Some value) = Ok 0)
  /\ (forall value, has_nul value = false ->
        casefold value ∉ true_tokens -> casefold value ∉ false_tokens ->
        match git_config__parse_int name value with
        | Ok n =>
            git_config__parse_bool name (Some value)
              = Ok (if n =? 0 then 0 else 1)
        | Err e =>
            e = GIT_EINVALIDTYPE /\
            git_config__parse_bool name (Some value) = Err GIT_EINVALIDTYPE
        end)
  /\ (forall value e, git_config__parse_bool name value = Err e ->
        e = GIT_EINVALIDTYPE /\
        exists v, value = Some v /\
          git_config__parse_int name v = Err GIT_EINVALIDTYPE).
Proof.
  assert (Hint : forall v e,
    git_config__parse_int name v = Err e -> e = GIT_EINVALIDTYPE).
  { intros v e. unfold git_config__parse_int.
    destruct (git_config__parse_long name v) eqn:E; [done|].
    intros [= <-]. by apply parse_long_error in E. }
  repeat split.
  - intros value Hin.
    assert (Hv : has_nul value = false).
    { apply token_no_nul. apply elem_of_app. by left. }
    destruct (parse_bool_tests value Hv) as [Ht _].
    unfold git_config__parse_bool. rewrite Ht. by rewrite bool_decide_eq_true_2.
  - intros value Hin.
    assert (Hv : has_nul value = false).
    { apply token_no_nul. apply elem_of_app. by right. }
    destruct (parse_bool_tests value Hv) as [Ht Hf].
    unfold git_config__parse_bool. rewrite Ht, Hf.
    rewrite bool_decide_eq_false_2, bool_decide_eq_true_2; [done..|].
    unfold true_tokens, false_tokens in *. intros Hin'.
    rewrite ?elem_of_cons, ?elem_of_nil in *.
    destruct Hin as [E|[E|[E|[]]]]; rewrite E in Hin';
      destruct Hin' as [?|[?|[?|[]]]]; discriminate.
  - intros value Hv Ht Hf.
    destruct (parse_bool_tests value Hv) as [Et Ef].
    unfold git_config__parse_bool. rewrite Et, Ef.
    rewrite !bool_decide_eq_false_2 by done.
    destruct (git_config__parse_int name value) as [n|e] eqn:E; [done|].
    apply Hint in E as ->. done.
  - destruct value as [v|]; [|discriminate]. revert H0.
    unfold git_config__parse_bool.
    repeat (destruct (orb _ _); [discriminate|]).
    destruct (git_config__parse_int name v) as [n|e'] eqn:E; [discriminate|].
    intros [= <-]. by apply Hint in E.
  - destruct value as [v|]; [|discriminate]. exists v. split; [done|].
    revert H0. unfold git_config__parse_bool.
    repeat (destruct (orb _ _); [discriminate|]).
    destruct (git_config__parse_int name v) as [n|e'] eqn:E; [discriminate|].
    intros _. by rewrite (Hint _ _ E).
Qed.

End CoercionProperties.

(** ** The model of the literal parser and unit suffixes

    A unit suffix is a digit in none of the bases the model reads, so a
    literal that the model reads to its end is read the same, with the
    suffix left over, when a suffix follows it. *)

Lemma strtol_sign_app c p s :
  strtol_sign (String c p ++ s) =
    ((strtol_sign (String c p)).1, (strtol_sign (String c p)).2 ++ s)%string.
Proof. destruct c as [[] [] [] [] [] [] [] []]; reflexivity. Qed.

Lemma strtol_base_app c p c' :
  c' <> "x"%char -> c' <> "X"%char ->
  strtol_base (String c p ++ String c' "") 0 =
    ((strtol_base (String c p) 0).1,
     (strtol_base (String c p) 0).2 ++ String c' "")%string.
Proof.
  intros Hx HX.
  destruct c as [[] [] [] [] [] [] [] []]; try reflexivity.
  destruct p as [|d p].
  - destruct c' as [[] [] [] [] [] [] [] []]; try reflexivity; congruence.
  - destruct d as [[] [] [] [] [] [] [] []]; reflexivity.
Qed.

Lemma strtol_base_values p :
  (strtol_base p 0).1 = 8 \/ (strtol_base p 0).1 = 10
  \/ (strtol_base p 0).1 = 16.
Proof.
  destruct p as [|c p]; [by right; left|].
  destruct c as [[] [] [] [] [] [] [] []]; try (by right; left).
  destruct p as [|d p]; [by left|].
  destruct d as [[] [] [] [] [] [] [] []]; try (by left); by right; right.
Qed.

Lemma strtol_digits_app base p c n ndig n' ndig' :
  strtol_digits base p n ndig = (n', ndig', "") ->
  base <= digit_value c ->
  strtol_digits base (p ++ String c "") n ndig = (n', ndig', String c "").
Proof.
  intros Hd Hc. revert n ndig Hd.
  induction p as [|a p IH]; intros n ndig; simpl.
  - intros [= <- <-]. by rewrite (proj2 (Z.ltb_ge _ _) Hc).
  - destruct (digit_value a <? base); [apply IH|discriminate].
Qed.

Lemma unit_factor_digit c factor :
  unit_factor c = Some factor ->
  16 <= digit_value c /\ c <> "x"%char /\ c <> "X"%char.
Proof.
  destruct c as [[] [] [] [] [] [] [] []]; try discriminate;
    intros _; repeat split; discriminate.
Qed.

Lemma strtol32_model_suffix lit num c factor :
  strtol32_model lit 0 = Ok (num, "") ->
  unit_factor c = Some factor ->
  strtol32_model (lit ++ String c "") 0 = Ok (num, String c "").
Proof.
  intros Hlit (Hc & Hx & HX)%unit_factor_digit. revert Hlit.
  unfold strtol32_model.
  destruct lit as [|a lit]; [discriminate|].
  rewrite strtol_sign_app.
  destruct (strtol_sign (String a lit)) as [neg p]. simpl fst. simpl snd.
  destruct p as [|b p]; [discriminate|].
  rewrite strtol_base_app by done.
  pose proof (strtol_base_values (String b p)) as Hb.
  destruct (strtol_base (String b p) 0) as [base q]. simpl fst in *.
  simpl snd.
  destruct (strtol_digits base q 0 0) as [[n ndig] r] eqn:Hd.
  destruct ndig as [|ndig]; [discriminate|].
  destruct (andb _ _) eqn:Hr; [|discriminate].
  intros [= <- ->].
  rewrite (strtol_digits_app _ _ c _ _ _ _ Hd) by lia.
  by rewrite Hr.
Qed.

(** With the model, a value made of a literal and one unit suffix is
    the literal's value times the factor of the suffix. *)
Lemma parse_long_model_suffix name lit num c factor :
  strtol32_model lit 0 = Ok (num, "") ->
  unit_factor c = Some factor ->
  in_range LONG_BITS (num * factor) ->
  @git_config__parse_long strtol32_model name (lit ++ String c "")
    = Ok (num * factor).
Proof.
  intros Hlit Hc Hfit.
  apply (@parse_long_suffix strtol32_model
           name _ num (String c "") factor); [|done..].
  by apply (strtol32_model_suffix lit num c factor).
Qed.

(** The values of the specification's examples, read by the model of
    [git__strtol32]. *)
Lemma git_config__parse_long_units_witness :
  @git_config__parse_long strtol32_model "core.packedgitlimit" "10k"
    = Ok 10240
  /\ @git_config__parse_long strtol32_model "core.packedgitlimit" "2G"
    = Ok (2 * 1024 * 1024 * 1024)
  /\ @git_config__parse_long strtol32_model "core.packedgitlimit" "-12"
    = Ok (-12).
Proof.
  pose (units := @git_config__parse_long_units strtol32_model
                   "core.packedgitlimit").
  assert (R : forall z, (- 2 ^ 63 <=? z) && (z <? 2 ^ 63) = true ->
                        in_range LONG_BITS z).
  { intros z [H1 H2]%andb_prop. unfold in_range, LONG_BITS. simpl Z.sub. lia. }
  split; [|split].
  - exact (proj1 (proj2 (units "10k" 10) "k"%char eq_refl)
             (or_introl eq_refl) (R (10 * 1024) eq_refl)).
  - exact (proj2 (proj2 (proj2 (units "2G" 2) "G"%char eq_refl))
             (or_intror eq_refl) (R (2 * (1024 * 1024 * 1024)) eq_refl)).
  - exact (proj1 (units "-12" (-12)) eq_refl).
Defined.

Lemma git_config__parse_bool_spec_witness :
  @git_config__parse_bool strtol32_model "core.bare" None = Ok 1
  /\ @git_config__parse_bool strtol32_model "core.bare" (Some "On") = Ok 1
  /\ @git_config__parse_bool strtol32_model "core.bare" (Some "0") = Ok 0
  /\ @git_config__parse_bool strtol32_model "core.bare" (Some "2") = Ok 1
  /\ @git_config__parse_bool strtol32_model "core.bare" (Some "banana")
       = Err GIT_EINVALIDTYPE.
Proof.
  destruct (@git_config__parse_bool_spec strtol32_model
              strtol32_model_spec "core.bare") as (Hn & Ht & Hf & Hi & He).
  assert (Hnot : forall (v : string) (toks : list string),
    bool_decide (casefold v ∈ toks) = false -> casefold v ∉ toks).
  { intros v toks. apply bool_decide_eq_false_1. }
  split; [exact Hn|]. split.
  { apply Ht. unfold true_tokens. simpl. mem. }
  split; [|split].
  - exact (Hi "0" eq_refl (Hnot "0" true_tokens eq_refl)
             (Hnot "0" false_tokens eq_refl)).
  - exact (Hi "2" eq_refl (Hnot "2" true_tokens eq_refl)
             (Hnot "2" false_tokens eq_refl)).
  - exact (proj2 (Hi "banana" eq_refl (Hnot "banana" true_tokens eq_refl)
             (Hnot "banana" false_tokens eq_refl))).
Defined.

(** C4: the character after the literal is the only one
    [git_config__parse_long] looks at.  A value whose literal is followed
    by anything but a unit suffix is a type error, but what follows a
    unit suffix is accepted unread: ["5x"] is rejected, ["5kx"] is
    5 * 1024. *)
Theorem git_config__parse_long_trailing :
  @git_config__parse_long strtol32_model "core.packedgitlimit" "5x"
    = Err GIT_EINVALIDTYPE
  /\ @git_config__parse_long strtol32_model "core.packedgitlimit" "5kx"
    = Ok 5120
  /\ @git_config__parse_long strtol32_model "core.packedgitlimit" "10kb"
    = Ok 10240.
Proof. repeat split. Qed.

(** C5: the multiplication by the factor of the suffix is done in a
    [long] and is not checked.  The literal 8589934592 followed by [G]
    stands for 2^63, and the literal 4611686018427387904 followed by
    [k] for 2^72; the first parses to -2^63 and the second to 0. *)
Theorem git_config__parse_long_overflow :
  @git__strtol32 strtol32_model "8589934592G" 0 = Ok (8589934592, "G")
  /\ @git_config__parse_long strtol32_model "core.packedgitlimit"
       "8589934592G" = Ok (- 2 ^ 63)
  /\ 8589934592 * (1024 * 1024 * 1024) = 2 ^ 63
  /\ @git__strtol32 strtol32_model "4611686018427387904k" 0
       = Ok (2 ^ 62, "k")
  /\ @git_config__parse_long strtol32_model "core.packedgitlimit"
       "4611686018427387904k" = Ok 0.
Proof. repeat split. Qed.

(** C6: [git_config__parse_bool] tests the integer after its conversion
    to [int], which is not checked.  The value ["4G"] parses to the
    integer 4294967296, which is not zero, and reads as false. *)
Theorem git_config__parse_bool_truncated :
  @git_config__parse_long strtol32_model "core.bare" "4G" = Ok 4294967296
  /\ @git_config__parse_int strtol32_model "core.bare" "4G" = Ok 0
  /\ @git_config__parse_bool strtol32_model "core.bare" (Some "4G") = Ok 0.
Proof. repeat split. Qed.

(** ** Reading and writing through the store *)

Section StoreAccess.
Context {B : Type} `{ConfigFile B}.
Implicit Types (cfg : git_config B) (internal : file_internal B).

Lemma get_string_cons cfg internal rest name :
  files cfg = internal :: rest ->
  git_config_get_string cfg name = file_get (backend (file internal)) name.
Proof. intros E. unfold git_config_get_string. by rewrite E. Qed.

Lemma get_string_nil cfg name :
  files cfg = [] -> git_config_get_string cfg name = Err GIT_EINVALIDARGS.
Proof. intros E. unfold git_config_get_string. by rewrite E. Qed.

Lemma set_string_nil cfg name value :
  files cfg = [] ->
  git_config_set_string cfg name value = (Err GIT_EINVALIDARGS, cfg).
Proof. intros E. unfold git_config_set_string. by rewrite E. Qed.

Lemma sorted_desc_head internal rest :
  sorted_desc (internal :: rest) ->
  Forall (fun lower => priority lower <= priority internal) rest.
Proof. by inversion 1. Qed.

(** On a store with at least one backend, [git_config_get_string]
    returns what the [get] of the backend at index 0 returns: its value
    when the key is present there, and not-found when it is absent
    there, whatever the backends after it hold.  In a sorted sequence no
    backend has a higher priority than the one at index 0. *)
Theorem git_config_get_string_top cfg internal rest (name : string) :
  files cfg = internal :: rest ->
  git_config_get_string cfg name = file_get (backend (file internal)) name
  /\ (forall value,
        file_get (backend (file internal)) name = Ok value ->
        git_config_get_string cfg name = Ok value)
  /\ (file_get (backend (file internal)) name = Err GIT_ENOTFOUND ->
      forall lower value,
        lower ∈ rest ->
        file_get (backend (file lower)) name = Ok value ->
        git_config_get_string cfg name = Err GIT_ENOTFOUND)
  /\ (sorted_desc (files cfg) ->
      Forall (fun lower => priority lower <= priority internal) rest).
Proof.
  intros E. rewrite (get_string_cons cfg internal rest name E).
  repeat split; try done.
  rewrite E. apply sorted_desc_head.
Qed.

(** C7: on a store without backend [git_config_get_string] and
    [git_config_set_string] fail with an invalid-argument error, and the
    store is left as it was. *)
Theorem git_config_no_backend cfg (name value : string) :
  files cfg = [] ->
  git_config_get_string cfg name = Err GIT_EINVALIDARGS
  /\ git_config_set_string cfg name value = (Err GIT_EINVALIDARGS, cfg).
Proof.
  intros E. split; [by apply get_string_nil|by apply set_string_nil].
Qed.

End StoreAccess.

(** The specification's example of a read that does not merge: backend A
    (priority 1) holds x = 1, backend B (priority 2) does not hold x; in
    either order of registration the store answers not-found. *)
Lemma git_config_get_string_top_witness :
  let A := unbound ({["x" := Some "1"]} : gmap string (option string)) in
  let B := unbound (∅ : gmap string (option string)) in
  (exists cfg, @build vector_model _ [(A, 1); (B, 2)] plenty = Ok cfg
     /\ @git_config_get_string _ map_backend cfg "x" = Err GIT_ENOTFOUND)
  /\ (exists cfg, @build vector_model _ [(B, 2); (A, 1)] plenty = Ok cfg
     /\ @git_config_get_string _ map_backend cfg "x" = Err GIT_ENOTFOUND).
Proof.
  intros A B.
  split; (eexists; split; [reflexivity|]);
    lazymatch goal with
    | |- git_config_get_string ?cfg _ = _ =>
        destruct (@git_config_get_string_top _ map_backend cfg _ _ "x"
                    eq_refl) as (_ & _ & Hnf & _)
    end;
    (eapply Hnf; [reflexivity|by left|reflexivity]).
Defined.

Lemma git_config_no_backend_witness :
  exists cfg : git_config (gmap string (option string)),
    @build vector_model _ [] plenty = Ok cfg
    /\ @git_config_get_string _ map_backend cfg "user.name"
         = Err GIT_EINVALIDARGS
    /\ @git_config_set_string _ map_backend cfg "user.name" "A U Thor"
         = (Err GIT_EINVALIDARGS, cfg).
Proof.
  eexists. split; [reflexivity|].
  apply (@git_config_no_backend _ map_backend). reflexivity.
Defined.

(** ** Iteration *)

Lemma foreach_keys_app {D} (fn : callback D) keys1 keys2 data :
  foreach_keys fn (keys1 ++ keys2) data =
    let '(ret, data') := foreach_keys fn keys1 data in
    if ret =? 0 then foreach_keys fn keys2 data' else (ret, data').
Proof.
  revert data. induction keys1 as [|k keys1 IH]; intros data; simpl; [done|].
  destruct (fn k data) as [ret data1].
  destruct (Z.eqb_spec ret 0) as [->|Hret]; [apply IH|].
  by rewrite (proj2 (Z.eqb_neq ret 0) Hret).
Qed.

Lemma foreach_keys_all_zero {D} (fn : callback D) keys data data' :
  all_zero fn keys data data' ->
  foreach_keys fn keys data = (GIT_SUCCESS, data').
Proof. induction 1 as [|k keys data data1 data' E _ IH]; simpl; [done|]. by rewrite E. Qed.

Lemma foreach_keys_stop {D} (fn : callback D) pre k post data data1 ret data2 :
  all_zero fn pre data data1 ->
  fn k data1 = (ret, data2) -> ret <> 0 ->
  foreach_keys fn (pre ++ k :: post) data = (ret, data2).
Proof.
  intros Hpre Hk Hret. rewrite foreach_keys_app.
  rewrite (foreach_keys_all_zero _ _ _ _ Hpre). simpl. rewrite Hk.
  by rewrite (proj2 (Z.eqb_neq ret 0) Hret).
Qed.

Lemma logged_all_zero {D} (fn : callback D) keys log data data' :
  all_zero fn keys data data' ->
  all_zero (logged fn) keys (log, data) ((log ++ keys)%list, data').
Proof.
  intros Hz. revert log.
  induction Hz as [|k keys data data1 data' E _ IH]; intros log.
  - rewrite app_nil_r. constructor.
  - apply all_zero_cons with (data1 := ((log ++ [k])%list, data1)).
    + unfold logged. simpl. by rewrite E.
    + rewrite (assoc_L _ log [k] keys : (log ++ k :: keys = (log ++ [k]) ++ keys)%list).
      apply IH.
Qed.

Section Iteration.
Context {B : Type} `{Hspec : ConfigFileSpec B}.
Implicit Types (cfg : git_config B).

Lemma foreach_loop_stopped {D} (l : list (file_internal B)) (fn : callback D)
    ret data :
  ret <> 0 -> foreach_loop l fn ret data = (ret, data).
Proof.
  intros Hret. destruct l; simpl; [done|].
  by rewrite (proj2 (Z.eqb_neq ret 0) Hret).
Qed.

Lemma foreach_loop_keys {D} (l : list (file_internal B)) (fn : callback D)
    data :
  foreach_loop l fn 0 data =
    foreach_keys fn
      (concat ((fun internal => file_keys (backend (file internal))) <$> l))
      data.
Proof.
  revert data. induction l as [|internal l IH]; intros data; [done|].
  cbn [foreach_loop fmap list_fmap concat]. simpl Z.eqb. cbv iota.
  rewrite foreach_keys_app, file_foreach_keys.
  destruct (foreach_keys fn _ data) as [ret data1].
  destruct (Z.eqb_spec ret 0) as [->|Hret]; [apply IH|].
  by apply foreach_loop_stopped.
Qed.

Lemma git_config_foreach_keys {D} cfg (fn : callback D) data :
  git_config_foreach cfg fn data = foreach_keys fn (all_keys cfg) data.
Proof. apply foreach_loop_keys. Qed.

(** [git_config_foreach] runs the callback over the keys of the
    backends in the order of the sequence (index 0, the highest priority
    of a sorted store, first): once on each key of each backend as long
    as the callback returns zero.  The first call that returns a nonzero
    value is the last one, whatever keys and backends remain, and that
    value is returned; when every call returns zero the result is
    [GIT_SUCCESS]. *)
Theorem git_config_foreach_spec {D} cfg (fn : callback D) (data : D) :
  git_config_foreach cfg fn data = foreach_keys fn (all_keys cfg) data
  /\ (forall data',
        all_zero fn (all_keys cfg) data data' ->
        git_config_foreach cfg (logged fn) ([], data)
          = (GIT_SUCCESS, (all_keys cfg, data')))
  /\ (forall pre k post data1 ret data2,
        all_keys cfg = (pre ++ k :: post)%list ->
        all_zero fn pre data data1 ->
        fn k data1 = (ret, data2) -> ret <> 0 ->
        git_config_foreach cfg fn data = (ret, data2)
        /\ git_config_foreach cfg (logged fn) ([], data)
             = (ret, ((pre ++ [k])%list, data2))).
Proof.
  split; [apply git_config_foreach_keys|]. split.
  - intros data' Hz. rewrite git_config_foreach_keys.
    apply foreach_keys_all_zero.
    apply (logged_all_zero fn _ [] _ _ Hz).
  - intros pre k post data1 ret data2 Hkeys Hpre Hk Hret.
    rewrite !git_config_foreach_keys, Hkeys. split.
    + by apply foreach_keys_stop with (data1 := data1).
    + apply foreach_keys_stop with (data1 := (pre, data1)); [|
        unfold logged; simpl; by rewrite Hk|done].
      apply (logged_all_zero fn _ [] _ _ Hpre).
Qed.

End Iteration.

(** The top backend holds the key on which the callback stops: the key
    of the lower backend is never visited. *)
Lemma git_config_foreach_spec_witness :
  let top := unbound ({["stop" := Some "1"]} : gmap string (option string)) in
  let low := unbound ({["never" := Some "2"]} : gmap string (option string)) in
  exists cfg, @build vector_model _ [(low, 1); (top, 2)] plenty = Ok cfg
    /\ @git_config_foreach _ map_backend _ cfg (logged (stop_at "stop")) ([], 0)
         = (7, (["stop"], 1)).
Proof.
  intros top low. eexists. split; [reflexivity|].
  lazymatch goal with
  | |- git_config_foreach ?cfg _ _ = _ =>
      destruct (@git_config_foreach_spec _ map_backend map_backend_spec
                  _ cfg (stop_at "stop") 0) as (_ & _ & Hstop)
  end.
  refine (proj2 (Hstop [] "stop" ["never"] 0 7 1 _ _ _ _)).
  - reflexivity.
  - constructor.
  - reflexivity.
  - discriminate.
Defined.

Section Empty.
Context {B : Type} `{ConfigFile B}.

(** C10: on a store without backend [git_config_foreach] returns
    [GIT_SUCCESS] without one invocation of the callback, while
    [git_config_get_string] and [git_config_set_string] fail with an
    invalid-argument error. *)
Theorem git_config_foreach_no_backend {D} (cfg : git_config B)
    (fn : callback D) (data : D) (name value : string) :
  files cfg = [] ->
  git_config_foreach cfg fn data = (GIT_SUCCESS, data)
  /\ git_config_foreach cfg (logged fn) ([], data) = (GIT_SUCCESS, ([], data))
  /\ git_config_get_string cfg name = Err GIT_EINVALIDARGS
  /\ git_config_set_string cfg name value = (Err GIT_EINVALIDARGS, cfg).
Proof.
  intros E. unfold git_config_foreach. rewrite E. simpl.
  repeat split; [by apply get_string_nil|by apply set_string_nil].
Qed.

End Empty.

Lemma git_config_foreach_no_backend_witness :
  exists cfg : git_config (gmap string (option string)),
    @build vector_model _ [] plenty = Ok cfg
    /\ @git_config_foreach _ map_backend _ cfg (logged (stop_at "stop")) ([], 0)
         = (GIT_SUCCESS, ([], 0))
    /\ @git_config_get_string _ map_backend cfg "stop" = Err GIT_EINVALIDARGS.
Proof.
  eexists. split; [reflexivity|].
  lazymatch goal with
  | |- git_config_foreach ?cfg _ _ = _ /\ _ =>
      destruct (@git_config_foreach_no_backend _ map_backend _ cfg
                  (stop_at "stop") 0 "stop" "1" eq_refl) as (_ & Hlog & Hget & _)
  end.
  exact (conj Hlog Hget).
Defined.

(** ** Setters *)

Section Setters.
Context {B : Type} `{Hspec : ConfigFileSpec B}.
Implicit Types (cfg : git_config B) (internal : file_internal B).

(** On a store with at least one backend, a [git_config_set_bool]
    that succeeds has handed the string true (for a nonzero value) or
    false (for zero) to the [set] of the backend at index 0 and has
    changed no other entry; [git_config_get_string] on the same name
    then returns exactly that string. *)
Theorem git_config_set_bool_get_string cfg cfg' internal rest
    (name : string) (value : Z) :
  files cfg = internal :: rest ->
  git_config_set_bool cfg name value = (OK, cfg') ->
  (exists b',
      file_set (backend (file internal)) name
        (if value =? 0 then "false" else "true") = (OK, b')
      /\ files cfg' =
           {| entry := entry internal;
              file := {| file_cfg := file_cfg (file internal);
                         backend := b' |};
              priority := priority internal |} :: rest)
  /\ (value <> 0 -> git_config_get_string cfg' name = Ok (Some "true"))
  /\ (value = 0 -> git_config_get_string cfg' name = Ok (Some "false")).
Proof.
  intros E. unfold git_config_set_bool, git_config_set_string. rewrite E.
  destruct (file_set _ _ _) as [r b'] eqn:Hset. intros [= -> <-].
  pose proof (file_get_set _ _ _ _ Hset) as Hget.
  split; [by exists b'|].
  unfold git_config_get_string. simpl.
  split; intros Hv.
  - by rewrite (proj2 (Z.eqb_neq value 0) Hv) in Hget.
  - by rewrite Hv in Hget.
Qed.

End Setters.

Lemma git_config_set_bool_get_string_witness :
  let A := unbound ({["x" := Some "1"]} : gmap string (option string)) in
  let B := unbound (∅ : gmap string (option string)) in
  exists cfg cfg',
    @build vector_model _ [(A, 1); (B, 2)] plenty = Ok cfg
    /\ @git_config_set_bool _ map_backend cfg "flag" 1 = (OK, cfg')
    /\ @git_config_get_string _ map_backend cfg' "flag" = Ok (Some "true").
Proof.
  intros A B. do 2 eexists. split; [reflexivity|].
  lazymatch goal with
  | |- git_config_set_bool ?cfg _ _ = _ /\ _ =>
      split; [reflexivity|];
      refine (proj1 (proj2 (@git_config_set_bool_get_string _ map_backend
                map_backend_spec cfg _ _ _ "flag" 1 eq_refl eq_refl)) _)
  end.
  discriminate.
Defined.

(** ** Registration *)

Section Registration.
Context `{GitVector} {B : Type}.
Implicit Types (cfg : git_config B) (f : git_config_file B).

(** C8: a [git_config_add_file] that fails fails for lack of memory and
    leaves the store, its sequence included, and the backend, its owning
    store included, as they were; the backend is bound to the store when
    the call succeeds. *)
Theorem git_config_add_file_failure cfg cfg' f f' (prio : Z)
    (h h' : allocator) (r : status) :
  git_config_add_file cfg f prio h = (r, cfg', f', h') ->
  match r with
  | Err e =>
      e = GIT_ENOMEM /\ cfg' = cfg /\ files cfg' = files cfg /\ f' = f
  | Ok _ => file_cfg f' = Some (self cfg)
  end.
Proof.
  unfold git_config_add_file.
  destruct (git__malloc h) as [[internal|] h1].
  - destruct (git_vector_insert _ _ h1) as [[v|e] h2].
    + by intros [= <- <- <- <-].
    + by intros [= <- <- <- <-].
  - by intros [= <- <- <- <-].
Qed.

End Registration.

(** The block of the entry cannot be had, or the vector cannot grow. *)
Lemma git_config_add_file_failure_witness :
  let A := unbound ({["x" := Some "1"]} : gmap string (option string)) in
  let B := unbound (∅ : gmap string (option string)) in
  exists cfg,
    @build vector_model _ [(A, 1)] plenty = Ok cfg
    /\ (@git_config_add_file vector_model _ cfg B 2
          {| brk := 9%N; outcomes := [false] |}).1.1 = (Err GIT_ENOMEM, cfg)
    /\ (@git_config_add_file vector_model _ cfg B 2
          {| brk := 9%N; outcomes := [true; false] |}).1.1
         = (Err GIT_ENOMEM, cfg).
Proof.
  intros A B. eexists. split; [reflexivity|].
  split.
  - lazymatch goal with
    | |- (git_config_add_file ?cfg _ _ ?h).1.1 = _ =>
        destruct (@git_config_add_file_failure vector_model _ cfg _ B _ 2 h _
                    (Err GIT_ENOMEM) eq_refl) as (_ & Hcfg & _)
    end.
    exact (f_equal (pair (Err GIT_ENOMEM)) Hcfg).
  - lazymatch goal with
    | |- (git_config_add_file ?cfg _ _ ?h).1.1 = _ =>
        destruct (@git_config_add_file_failure vector_model _ cfg _ B _ 2 h _
                    (Err GIT_ENOMEM) eq_refl) as (_ & Hcfg & _)
    end.
    exact (f_equal (pair (Err GIT_ENOMEM)) Hcfg).
Defined.

(** ** The order of the sequence *)

Lemma priority_set_cfg_at {B} internal cfg (e : file_internal B) :
  priority (set_cfg_at internal cfg e) = priority e.
Proof. unfold set_cfg_at. by destruct (N.eqb _ _). Qed.

Lemma StronglySorted_impl_on {A} (R R' : A -> A -> Prop) (l : list A) :
  (forall x y, x ∈ l -> y ∈ l -> R x y -> R' x y) ->
  StronglySorted R l -> StronglySorted R' l.
Proof.
  intros Himpl. induction 1 as [|x l Hs IH Hx]; constructor.
  - apply IH. intros a b Ha Hb. apply Himpl; mem.
  - rewrite Forall_forall in Hx |- *. intros y Hy.
    apply Himpl; [mem|mem|by apply Hx].
Qed.

(** Where the difference of the priorities fits an [int], the comparator
    is that difference. *)
Lemma config_backend_cmp_fit {B} (ps : list Z) (a b : file_internal B) :
  prio_fit ps -> priority a ∈ ps -> priority b ∈ ps ->
  config_backend_cmp a b = priority b - priority a.
Proof.
  intros Hfit Ha Hb. unfold config_backend_cmp.
  apply int_sub_in_range. by apply Hfit.
Qed.

Section Order.
Context `{Hvec : GitVectorSpec} {B : Type}.
Implicit Types (cfg : git_config B) (f : git_config_file B).

Lemma git_config_new_empty (h h' : allocator) cfg :
  git_config_new h = (Ok cfg, h') -> files cfg = [].
Proof.
  unfold git_config_new. destruct (git__malloc h) as [[p|] h1]; [|done].
  destruct (git_vector_init h1) as [[v|e] h2] eqn:Hinit; [|done].
  intros [= <- _]. simpl. by apply git_vector_init_ok in Hinit.
Qed.

(** As long as no difference of two priorities overflows, a successful
    registration leaves the sequence in descending order of priority,
    holding the priorities it held and the new one. *)
Lemma git_config_add_file_sorted cfg cfg' f f' prio h h' :
  prio_fit (prio :: (priority <$> files cfg)) ->
  git_config_add_file cfg f prio h = (OK, cfg', f', h') ->
  sorted_desc (files cfg')
  /\ priority <$> files cfg' ≡ₚ prio :: (priority <$> files cfg).
Proof.
  intros Hfit. unfold git_config_add_file.
  destruct (git__malloc h) as [[internal|] h1]; [|done].
  destruct (git_vector_insert _ _ h1) as [[v|e] h2] eqn:Hins; [|done].
  intros [= <- _ _]. simpl.
  apply git_vector_insert_ok in Hins.
  set (ps := prio :: (priority <$> files cfg)) in *.
  assert (Hps : forall x, x ∈ v -> priority x ∈ ps).
  { intros x Hx. rewrite Hins in Hx. unfold ps.
    apply elem_of_cons in Hx as [->|Hx]; [by left|right].
    by apply list_elem_of_fmap_2. }
  assert (Hcmp : forall x y, x ∈ v -> y ∈ v ->
            config_backend_cmp x y = priority y - priority x).
  { intros x y Hx Hy. apply (config_backend_cmp_fit ps); auto. }
  split.
  - unfold sorted_desc.
    apply (StronglySorted_fmap _ (fun a b => priority b <= priority a)).
    { intros x y. by rewrite !priority_set_cfg_at. }
    apply (StronglySorted_impl_on (fun a b => config_backend_cmp a b <= 0)).
    { intros x y Hx Hy. rewrite git_vector_sort_perm in Hx, Hy.
      rewrite (Hcmp x y Hx Hy). lia. }
    apply git_vector_sort_sorted.
    + intros x y Hx Hy. rewrite (Hcmp x y), (Hcmp y x) by done. lia.
    + intros x y z Hx Hy Hz. rewrite (Hcmp x y), (Hcmp y z), (Hcmp x z) by done.
      lia.
  - rewrite <- list_fmap_compose.
    rewrite (list_fmap_ext (priority ∘ set_cfg_at internal (self cfg)) priority)
      by (intros; apply priority_set_cfg_at).
    by rewrite git_vector_sort_perm, Hins.
Qed.

End Order.

(** ** Priorities whose difference overflows *)

Lemma int_sub_overflow :
  int_sub (-2) INT_MAX = 2147483647 /\ int_sub INT_MAX (-2) = -2147483647
  /\ int_sub (-2) (-2) = 0 /\ int_sub INT_MAX INT_MAX = 0.
Proof. repeat split. Qed.

Section Overflow.
Context `{Hvec : GitVectorSpec} {B : Type}.
Implicit Types (cfg : git_config B) (f : git_config_file B).

Lemma git_config_add_file_ok cfg cfg' f f' prio h h' :
  git_config_add_file cfg f prio h = (OK, cfg', f', h') ->
  exists internal v,
    v ≡ₚ {| entry := internal; file := f; priority := prio |} :: files cfg
    /\ files cfg' = set_cfg_at internal (self cfg)
                      <$> git_vector_sort config_backend_cmp v.
Proof.
  unfold git_config_add_file.
  destruct (git__malloc h) as [[internal|] h1]; [|done].
  destruct (git_vector_insert _ _ h1) as [[v|e] h2] eqn:Hins; [|done].
  intros [= <- _ _]. exists internal, v. split; [|done].
  by apply git_vector_insert_ok in Hins.
Qed.

(** Whatever the sort of the vector does with elements that compare
    equal, a backend of priority -2 registered after one of priority
    [INT_MAX] comes first. *)
Lemma git_config_add_file_overflow_any cfg0 cfg1 cfg2 f g f' g' h0 h1 h2 h3 :
  files cfg0 = [] ->
  git_config_add_file cfg0 f INT_MAX h0 = (OK, cfg1, f', h1) ->
  git_config_add_file cfg1 g (-2) h2 = (OK, cfg2, g', h3) ->
  priority <$> files cfg2 = [-2; INT_MAX].
Proof.
  intros E0 Hadd1 Hadd2.
  apply git_config_add_file_ok in Hadd1 as (i1 & v1 & Hv1 & E1).
  apply git_config_add_file_ok in Hadd2 as (i2 & v2 & Hv2 & E2).
  rewrite E0 in Hv1. apply Permutation_singleton_r in Hv1 as ->.
  pose proof (git_vector_sort_perm _ config_backend_cmp
                [{| entry := i1; file := f; priority := INT_MAX |}]) as Hs1.
  apply Permutation_singleton_r in Hs1. rewrite Hs1 in E1. simpl in E1.
  rewrite E1 in Hv2. clear E1 Hs1.
  set (e1 := set_cfg_at i1 (self cfg0) _) in Hv2.
  set (e2 := {| entry := i2; file := g; priority := -2 |}) in Hv2.
  assert (P1 : priority e1 = INT_MAX) by apply priority_set_cfg_at.
  assert (P2 : priority e2 = -2) by done.
  destruct int_sub_overflow as (O1 & O2 & O3 & O4).
  assert (Hin : forall x, x ∈ v2 -> x = e2 \/ x = e1).
  { intros x. rewrite Hv2, !elem_of_cons, elem_of_nil. tauto. }
  assert (Hsorted : StronglySorted (fun a b => config_backend_cmp a b <= 0)
                      (git_vector_sort config_backend_cmp v2)).
  { apply git_vector_sort_sorted.
    - intros x y [->| ->]%Hin [->| ->]%Hin; unfold config_backend_cmp;
        rewrite ?P1, ?P2, ?O1, ?O2, ?O3, ?O4; lia.
    - intros x y z [->| ->]%Hin [->| ->]%Hin [->| ->]%Hin;
        unfold config_backend_cmp;
        rewrite ?P1, ?P2, ?O1, ?O2, ?O3, ?O4; lia. }
  pose proof (git_vector_sort_perm _ config_backend_cmp v2) as Hs2.
  apply (fun P => Permutation_trans P Hv2) in Hs2. symmetry in Hs2.
  apply Permutation_length_2_inv in Hs2 as [Hs2|Hs2];
    rewrite Hs2 in Hsorted, E2.
  - rewrite E2. simpl. by rewrite !priority_set_cfg_at, P1.
  - exfalso. inversion Hsorted as [|? ? _ Hhd]; subst.
    apply Forall_cons_1 in Hhd as [Hhd _]. revert Hhd.
    unfold config_backend_cmp. rewrite P1, P2, O1. lia.
Qed.

Lemma add_files_reachable cfg cfg' (l : list (git_config_file B * Z)) h h' :
  reachable cfg ->
  Forall (fun p => in_range INT_BITS p.2) l ->
  add_files cfg l h = (Ok cfg', h') ->
  reachable cfg'.
Proof.
  intros Hreach Hl. revert cfg h Hreach.
  induction Hl as [|[f prio] l Hp _ IH]; intros cfg h Hreach; simpl.
  - by intros [= <- _].
  - destruct (git_config_add_file cfg f prio h) as [[[[[]|e] cfg1] f1] h1] eqn:Hadd;
      [|done].
    apply IH. by eapply reachable_add.
Qed.

Lemma build_reachable cfg (l : list (git_config_file B * Z)) h :
  Forall (fun p => in_range INT_BITS p.2) l ->
  build l h = Ok cfg -> reachable cfg.
Proof.
  intros Hl. unfold build.
  destruct (git_config_new h) as [[cfg0|e] h0] eqn:Hnew; [|done].
  destruct (add_files cfg0 l h0) as [r h1] eqn:Hadd. simpl. intros ->.
  eapply add_files_reachable; [|done..]. by eapply reachable_new.
Qed.

End Overflow.

(** C2: the comparator subtracts the priorities as [int]s, and the
    difference of -2 and [INT_MAX] wraps to a positive number.  A new
    store in which a backend of priority [INT_MAX] and then one of
    priority -2 are registered, both successfully, holds them in
    ascending order. *)
Theorem git_config_add_file_overflow :
  exists cfg : git_config unit,
    @build vector_model _ [(unbound (), INT_MAX); (unbound (), -2)] plenty
      = Ok cfg
    /\ @reachable vector_model _ cfg
    /\ priority <$> files cfg = [-2; INT_MAX]
    /\ ~ sorted_desc (files cfg).
Proof.
  eexists. split; [reflexivity|]. split; [|split].
  - apply (@build_reachable vector_model _ _
             [(unbound (), INT_MAX); (unbound (), -2)] plenty); [|reflexivity].
    repeat constructor; done.
  - reflexivity.
  - intros Hs. apply sorted_desc_head in Hs.
    apply Forall_cons_1 in Hs as [Hs _]. revert Hs. simpl.
    unfold INT_MAX. lia.
Qed.

(** ** What the overflow does to reads, writes and iteration *)

(** C1: in a new store a backend of priority [INT_MAX] that does not
    hold the key x and then a backend of priority -2 that holds x = 1
    are registered.  The backend of priority -2 is at index 0, and
    [git_config_get_string] answers 1 from it, although the backend of
    the highest priority does not hold the key. *)
Theorem git_config_get_string_overflow :
  let hi := unbound (∅ : gmap string (option string)) in
  let lo := unbound ({["x" := Some "1"]} : gmap string (option string)) in
  exists cfg,
    @build vector_model _ [(hi, INT_MAX); (lo, -2)] plenty = Ok cfg
    /\ @reachable vector_model _ cfg
    /\ (fun e => (priority e, @file_get _ map_backend (backend (file e)) "x"))
         <$> files cfg
       = [(-2, Ok (Some "1")); (INT_MAX, Err GIT_ENOTFOUND)]
    /\ @git_config_get_string _ map_backend cfg "x" = Ok (Some "1").
Proof.
  intros hi lo. eexists. split; [reflexivity|]. split; [|split].
  - apply (@build_reachable vector_model _ _
             [(hi, INT_MAX); (lo, -2)] plenty); [|reflexivity].
    repeat constructor; done.
  - reflexivity.
  - reflexivity.
Qed.

(** C3: in a new store a backend of priority [INT_MAX] that holds the
    key hi and then a backend of priority -2 that holds the key lo are
    registered.  [git_config_foreach], with a callback that always
    returns zero, visits lo before hi: the backend of the lower priority
    first. *)
Theorem git_config_foreach_overflow :
  let hi := unbound ({["hi" := Some "1"]} : gmap string (option string)) in
  let lo := unbound ({["lo" := Some "2"]} : gmap string (option string)) in
  exists cfg,
    @build vector_model _ [(hi, INT_MAX); (lo, -2)] plenty = Ok cfg
    /\ @reachable vector_model _ cfg
    /\ (fun e => (priority e, @file_keys _ map_backend (backend (file e))))
         <$> files cfg
       = [(-2, ["lo"]); (INT_MAX, ["hi"])]
    /\ @git_config_foreach _ map_backend _ cfg
         (logged (fun _ (data : unit) => (0, data))) ([], ())
       = (GIT_SUCCESS, (["lo"; "hi"], ())).
Proof.
  intros hi lo. eexists. split; [reflexivity|]. split; [|split].
  - apply (@build_reachable vector_model _ _
             [(hi, INT_MAX); (lo, -2)] plenty); [|reflexivity].
    repeat constructor; done.
  - reflexivity.
  - reflexivity.
Qed.

(** C9: in a new store two empty backends are registered, the first
    with priority [INT_MAX] and the second with priority -2.
    [git_config_set_bool] of the name flag to true succeeds and stores
    the string true in the backend of priority -2; the backend of the
    highest priority does not hold the name afterwards. *)
Theorem git_config_set_bool_overflow :
  let hi := unbound (∅ : gmap string (option string)) in
  let lo := unbound (∅ : gmap string (option string)) in
  exists cfg cfg',
    @build vector_model _ [(hi, INT_MAX); (lo, -2)] plenty = Ok cfg
    /\ @reachable vector_model _ cfg
    /\ @git_config_set_bool _ map_backend cfg "flag" 1 = (OK, cfg')
    /\ (fun e => (priority e, backend (file e) !! "flag")) <$> files cfg'
       = [(-2, Some (Some "true")); (INT_MAX, None)]
    /\ @git_config_get_string _ map_backend cfg' "flag" = Ok (Some "true").
Proof.
  intros hi lo. do 2 eexists. split; [reflexivity|]. split; [|split; [|split]].
  - apply (@build_reachable vector_model _ _
             [(hi, INT_MAX); (lo, -2)] plenty); [|reflexivity].
    repeat constructor; done.
  - reflexivity.
  - reflexivity.
  - reflexivity.
Qed.

(** * Further properties of config.c *)

(** ** The comparator *)

Lemma wrap_int_zero z :
  - 2 ^ 32 < z < 2 ^ 32 -> wrap INT_BITS z = 0 <-> z = 0.
Proof.
  unfold wrap, INT_BITS. simpl Z.sub.
  change (2 ^ 31) with 2147483648. change (2 ^ 32) with 4294967296.
  intros Hz. split; [|by intros ->].
  intros E. Z.div_mod_to_equations. lia.
Qed.

(** X1: the comparator is zero exactly for two entries of equal
    priority; and where the difference of the priorities fits an [int],
    it is negative exactly when the first entry has the higher priority
    and positive exactly when it has the lower one. *)
Theorem config_backend_cmp_sign {B} (bk_a bk_b : file_internal B) :
  in_range INT_BITS (priority bk_a) -> in_range INT_BITS (priority bk_b) ->
  (config_backend_cmp bk_a bk_b = 0 <-> priority bk_a = priority bk_b)
  /\ (in_range INT_BITS (priority bk_b - priority bk_a) ->
      (config_backend_cmp bk_a bk_b < 0 <-> priority bk_b < priority bk_a)
      /\ (0 < config_backend_cmp bk_a bk_b <->
          priority bk_a < priority bk_b)).
Proof.
  intros Ha Hb. unfold config_backend_cmp. split.
  - unfold int_sub. rewrite wrap_int_zero; [lia|].
    unfold in_range, INT_BITS in Ha, Hb. simpl Z.sub in Ha, Hb.
    change (2 ^ 31) with 2147483648 in Ha, Hb.
    change (2 ^ 32) with 4294967296. lia.
  - intros Hd. rewrite (int_sub_in_range _ _ Hd). lia.
Qed.

Lemma config_backend_cmp_sign_witness :
  let a := {| entry := 1%N; file := unbound (); priority := 3 |} in
  let b := {| entry := 2%N; file := unbound (); priority := 1 |} in
  config_backend_cmp a b < 0 /\ 0 < config_backend_cmp b a.
Proof.
  intros a b.
  assert (R : forall z, (- 2 ^ 31 <=? z) && (z <? 2 ^ 31) = true ->
                        in_range INT_BITS z).
  { intros z [H1 H2]%andb_prop. unfold in_range, INT_BITS. simpl Z.sub. lia. }
  split.
  - apply (proj2 (config_backend_cmp_sign a b (R 3 eq_refl) (R 1 eq_refl))
             (R (-2) eq_refl)). simpl. lia.
  - apply (proj2 (config_backend_cmp_sign b a (R 1 eq_refl) (R 3 eq_refl))
             (R 2 eq_refl)). simpl. lia.
Defined.

(** ** Registration keeps what is registered *)

Lemma registered_set_cfg_at {B} internal cfg (e : file_internal B) :
  registered (set_cfg_at internal cfg e) = registered e.
Proof. unfold set_cfg_at. by destruct (N.eqb _ _). Qed.

Section Registered.
Context `{Hvec : GitVectorSpec} {B : Type}.
Implicit Types (cfg : git_config B) (f : git_config_file B).

Lemma add_file_registered cfg cfg' f f' prio h h' :
  git_config_add_file cfg f prio h = (OK, cfg', f', h') ->
  registered <$> files cfg' ≡ₚ (prio, backend f) :: (registered <$> files cfg).
Proof.
  intros (internal & v & Hv & ->)%git_config_add_file_ok.
  rewrite <- list_fmap_compose.
  rewrite (list_fmap_ext (registered ∘ set_cfg_at internal (self cfg))
             registered) by (intros; apply registered_set_cfg_at).
  by rewrite git_vector_sort_perm, Hv.
Qed.

(** X2: a successful registration keeps the address of the store and
    every backend already registered, with its priority, and adds the
    new backend with the priority given, once; the entry of the new
    backend is bound to the store. *)
Theorem git_config_add_file_adds_one cfg cfg' f f' (prio : Z)
    (h h' : allocator) :
  git_config_add_file cfg f prio h = (OK, cfg', f', h') ->
  self cfg' = self cfg
  /\ registered <$> files cfg' ≡ₚ (prio, backend f) :: (registered <$> files cfg)
  /\ length (files cfg') = S (length (files cfg))
  /\ exists e, e ∈ files cfg' /\ registered e = (prio, backend f)
       /\ file_cfg (file e) = Some (self cfg).
Proof.
  intros Hadd. pose proof (add_file_registered _ _ _ _ _ _ _ Hadd) as Hreg.
  split; [|split; [done|split]].
  - revert Hadd. unfold git_config_add_file.
    destruct (git__malloc h) as [[internal|] h1]; [|done].
    destruct (git_vector_insert _ _ h1) as [[v|e] h2]; [|done].
    by intros [= <- _ _].
  - apply Permutation_length in Hreg. revert Hreg. simpl.
    by rewrite !length_fmap.
  - apply git_config_add_file_ok in Hadd as (internal & v & Hv & ->).
    exists (set_cfg_at internal (self cfg)
              {| entry := internal; file := f; priority := prio |}).
    split.
    + apply list_elem_of_fmap_2. rewrite git_vector_sort_perm, Hv. by left.
    + unfold set_cfg_at. simpl. by rewrite N.eqb_refl.
Qed.

(** X3: when no difference of two of the priorities involved overflows
    an [int], a successful registration leaves the sequence in descending
    order of priority, and the entry at index 0 has the highest priority
    of all, the new one included. *)
Theorem git_config_add_file_order cfg cfg' f f' (prio : Z)
    (h h' : allocator) :
  prio_fit (prio :: (priority <$> files cfg)) ->
  git_config_add_file cfg f prio h = (OK, cfg', f', h') ->
  sorted_desc (files cfg')
  /\ exists top rest, files cfg' = top :: rest
       /\ forall p, p ∈ prio :: (priority <$> files cfg) -> p <= priority top.
Proof.
  intros Hfit Hadd.
  destruct (git_config_add_file_sorted _ _ _ _ _ _ _ Hfit Hadd)
    as [Hsorted Hperm].
  split; [done|].
  destruct (files cfg') as [|top rest] eqn:E.
  { apply Permutation_nil_cons in Hperm as []. }
  exists top, rest. split; [done|].
  intros p Hp. rewrite <- Hperm in Hp. simpl in Hp.
  apply elem_of_cons in Hp as [->|Hp]; [lia|].
  apply sorted_desc_head in Hsorted. rewrite Forall_forall in Hsorted.
  apply list_elem_of_fmap in Hp as (e & -> & He). by apply Hsorted.
Qed.

End Registered.

Lemma git_config_add_file_adds_one_witness :
  exists (cfg cfg' : git_config unit) f' h',
    @build vector_model _ [(unbound (), 1)] plenty = Ok cfg
    /\ @git_config_add_file vector_model _ cfg (unbound ()) 2 plenty
         = (OK, cfg', f', h')
    /\ length (files cfg') = 2%nat.
Proof.
  do 4 eexists. split; [reflexivity|].
  lazymatch goal with
  | |- ?L = (OK, ?c, ?f, ?h) /\ _ =>
      assert (Hadd : L = (OK, c, f, h)) by reflexivity
  end.
  split; [exact Hadd|].
  destruct (@git_config_add_file_adds_one vector_model vector_model_spec
              _ _ _ _ _ _ _ _ Hadd) as (_ & _ & Hlen & _).
  exact Hlen.
Defined.

Lemma git_config_add_file_order_witness :
  exists (cfg cfg' : git_config unit) f' h',
    @build vector_model _ [(unbound (), 1); (unbound (), 7)] plenty = Ok cfg
    /\ @git_config_add_file vector_model _ cfg (unbound ()) 3 plenty
         = (OK, cfg', f', h')
    /\ sorted_desc (files cfg').
Proof.
  do 4 eexists. split; [reflexivity|].
  lazymatch goal with
  | |- ?L = (OK, ?c, ?f, ?h) /\ _ =>
      assert (Hadd : L = (OK, c, f, h)) by reflexivity
  end.
  split; [exact Hadd|].
  refine (proj1 (@git_config_add_file_order vector_model vector_model_spec
                   _ _ _ _ _ _ _ _ _ Hadd)).
  intros p q Hp Hq. simpl in Hp, Hq.
  unfold in_range, INT_BITS. simpl Z.sub.
  rewrite ?elem_of_cons, elem_of_nil in Hp, Hq.
  destruct Hp as [->|[->|[->|[]]]]; destruct Hq as [->|[->|[->|[]]]]; lia.
Defined.

(** ** Writes address the backend at index 0 and nothing else *)

Section Write.
Context {B : Type} `{Hspec : ConfigFileSpec B}.
Implicit Types (cfg : git_config B).

Lemma set_string_frame cfg name value :
  let cfg' := (git_config_set_string cfg name value).2 in
  self cfg' = self cfg
  /\ priority <$> files cfg' = priority <$> files cfg
  /\ entry <$> files cfg' = entry <$> files cfg
  /\ (file_cfg ∘ file) <$> files cfg' = (file_cfg ∘ file) <$> files cfg
  /\ tail (files cfg') = tail (files cfg).
Proof.
  unfold git_config_set_string.
  destruct (files cfg) as [|internal rest] eqn:E; simpl.
  - by rewrite E.
  - by destruct (file_set _ _ _).
Qed.

Lemma sorted_desc_fmap (v : list (file_internal B)) :
  sorted_desc v <-> StronglySorted (fun p q => q <= p) (priority <$> v).
Proof.
  unfold sorted_desc. induction v as [|a v IH]; simpl.
  - split; constructor.
  - split; inversion 1 as [|? ? Hs Hhd]; subst; constructor.
    + by apply IH.
    + by rewrite Forall_fmap.
    + by apply IH.
    + by rewrite Forall_fmap in Hhd.
Qed.

Lemma sorted_desc_priorities (v w : list (file_internal B)) :
  priority <$> v = priority <$> w -> sorted_desc v -> sorted_desc w.
Proof. intros E. rewrite !sorted_desc_fmap. by rewrite E. Qed.

(** X4: whatever the backend answers, [git_config_set_string] (and with
    it the formatted setters) leaves the address of the store, the
    priorities, the addresses of the entries, the owner of every backend
    and every entry after index 0 as they were; a sequence in descending
    order of priority stays so. *)
Theorem git_config_set_string_frame cfg (name value : string) :
  let cfg' := (git_config_set_string cfg name value).2 in
  self cfg' = self cfg
  /\ priority <$> files cfg' = priority <$> files cfg
  /\ entry <$> files cfg' = entry <$> files cfg
  /\ (file_cfg ∘ file) <$> files cfg' = (file_cfg ∘ file) <$> files cfg
  /\ tail (files cfg') = tail (files cfg)
  /\ (sorted_desc (files cfg) -> sorted_desc (files cfg')).
Proof.
  intros cfg'.
  destruct (set_string_frame cfg name value) as (Hs & Hp & He & Hc & Ht).
  repeat split; try done.
  by apply sorted_desc_priorities.
Qed.

Lemma git_config_set_get_string_aux cfg cfg' (name value : string) :
  git_config_set_string cfg name value = (OK, cfg') ->
  git_config_get_string cfg' name = Ok (Some value).
Proof.
  unfold git_config_set_string, git_config_get_string.
  destruct (files cfg) as [|internal rest]; [done|].
  destruct (file_set _ _ _) as [r b'] eqn:Hset. intros [= -> <-]. simpl.
  by apply (file_get_set _ _ _ _ Hset).
Qed.

(** X5: a value that [git_config_set_string] reports as stored is the
    value [git_config_get_string] returns for that name afterwards, and
    the write has changed no backend but the one at index 0. *)
Theorem git_config_set_get_string cfg cfg' (name value : string) :
  git_config_set_string cfg name value = (OK, cfg') ->
  git_config_get_string cfg' name = Ok (Some value)
  /\ tail (files cfg') = tail (files cfg).
Proof.
  intros Hset. split; [by apply (git_config_set_get_string_aux cfg)|].
  pose proof (set_string_frame cfg name value) as Hf.
  cbv zeta in Hf. rewrite Hset in Hf. apply Hf.
Qed.

End Write.

Lemma git_config_set_get_string_witness :
  let A := unbound ({["x" := Some "1"]} : gmap string (option string)) in
  exists cfg cfg',
    @build vector_model _ [(A, 1)] plenty = Ok cfg
    /\ @git_config_set_string _ map_backend cfg "user.name" "A U Thor"
         = (OK, cfg')
    /\ @git_config_get_string _ map_backend cfg' "user.name"
         = Ok (Some "A U Thor").
Proof.
  intros A. do 2 eexists. split; [reflexivity|].
  lazymatch goal with
  | |- ?L = (OK, ?c) /\ _ => assert (Hset : L = (OK, c)) by reflexivity
  end.
  split; [exact Hset|].
  exact (proj1 (@git_config_set_get_string _ map_backend map_backend_spec
                  _ _ _ _ Hset)).
Defined.

(** ** Typed access through the store *)

Section Typed.
Context `{Strtol32} {B : Type} `{Hspec : ConfigFileSpec B}.
Implicit Types (cfg : git_config B).

Lemma parse_bool_canonical name (value : Z) :
  git_config__parse_bool name
    (Some (if value =? 0 then "false" else "true"))
    = Ok (if value =? 0 then 0 else 1).
Proof. by destruct (value =? 0). Qed.

(** X6: after a [git_config_set_bool] that succeeds,
    [git_config_get_bool] on the same name returns 1 when the value set
    was not zero and 0 when it was. *)
Theorem git_config_set_get_bool cfg cfg' (name : string) (value : Z) :
  git_config_set_bool cfg name value = (OK, cfg') ->
  git_config_get_bool cfg' name = Ok (if value =? 0 then 0 else 1).
Proof.
  unfold git_config_set_bool. intros Hset.
  unfold git_config_get_bool.
  rewrite (git_config_set_get_string_aux cfg cfg' name _ Hset).
  apply parse_bool_canonical.
Qed.

(** X7: the typed getters return the error of [git_config_get_string]
    as it is, without parsing anything: an invalid-argument error on a
    store without backend, and otherwise the error of the [get] of the
    backend at index 0, such as not-found for a missing key. *)
Theorem git_config_get_typed_error cfg (name : string) (e : git_error) :
  git_config_get_string cfg name = Err e ->
  git_config_get_long cfg name = Some (Err e)
  /\ git_config_get_int cfg name = Some (Err e)
  /\ git_config_get_bool cfg name = Err e
  /\ (files cfg = [] -> e = GIT_EINVALIDARGS)
  /\ (forall internal rest, files cfg = internal :: rest ->
        file_get (backend (file internal)) name = Err e).
Proof.
  intros Hget.
  unfold git_config_get_long, git_config_get_int, git_config_get_bool.
  rewrite Hget. repeat split.
  - intros E. rewrite (get_string_nil cfg name E) in Hget. congruence.
  - intros internal rest E.
    by rewrite (get_string_cons cfg internal rest name E) in Hget.
Qed.

(** X8: for a key that the backend at index 0 holds without a value,
    [git_config_get_bool] returns true. *)
Theorem git_config_get_bool_no_value cfg internal rest (name : string) :
  files cfg = internal :: rest ->
  file_get (backend (file internal)) name = Ok None ->
  git_config_get_bool cfg name = Ok 1.
Proof.
  intros E Hget. unfold git_config_get_bool.
  by rewrite (get_string_cons cfg internal rest name E), Hget.
Qed.

(** X9: a truth value read by [git_config__parse_bool],
    [git_config_get_bool] or [git_config_get_env_bool] is 0 or 1, and
    [git_config_get_env_bool] succeeds only for a variable that is
    set. *)
Theorem git_config_bool_normalised (name : string) :
  (forall value r, git_config__parse_bool name value = Ok r -> r = 0 \/ r = 1)
  /\ (forall cfg r, git_config_get_bool cfg name = Ok r -> r = 0 \/ r = 1)
  /\ (forall getenv r,
        git_config_get_env_bool getenv name = Ok r ->
        (r = 0 \/ r = 1) /\ is_Some (getenv name)).
Proof.
  assert (Hp : forall value r,
    git_config__parse_bool name value = Ok r -> r = 0 \/ r = 1).
  { intros [value|] r; simpl; [|intros [= <-]; by right].
    repeat (destruct (orb _ _); [intros [= <-]; auto|]).
    destruct (git_config__parse_int name value) as [out|]; [|done].
    intros [= <-]. destruct (out =? 0); auto. }
  split; [done|]. split.
  - intros cfg r. unfold git_config_get_bool.
    destruct (git_config_get_string cfg name); [apply Hp|done].
  - intros getenv r. unfold git_config_get_env_bool.
    destruct (getenv name) as [value|]; [|done].
    intros Hr. split; [by apply Hp in Hr|by eexists].
Qed.

End Typed.

Lemma git_config_set_get_bool_witness :
  let A := unbound (∅ : gmap string (option string)) in
  exists cfg cfg',
    @build vector_model _ [(A, 1)] plenty = Ok cfg
    /\ @git_config_set_bool _ map_backend cfg "core.bare" 5 = (OK, cfg')
    /\ @git_config_get_bool strtol32_model _ map_backend cfg' "core.bare"
         = Ok 1.
Proof.
  intros A. do 2 eexists. split; [reflexivity|].
  lazymatch goal with
  | |- ?L = (OK, ?c) /\ _ => assert (Hset : L = (OK, c)) by reflexivity
  end.
  split; [exact Hset|].
  exact (@git_config_set_get_bool strtol32_model _ map_backend
           map_backend_spec _ _ _ _ Hset).
Defined.

(** A key the only backend does not hold. *)
Lemma git_config_get_typed_error_witness :
  let A := unbound ({["x" := Some "1"]} : gmap string (option string)) in
  exists cfg,
    @build vector_model _ [(A, 1)] plenty = Ok cfg
    /\ @git_config_get_long strtol32_model _ map_backend cfg "y"
         = Some (Err GIT_ENOTFOUND)
    /\ @git_config_get_int strtol32_model _ map_backend cfg "y"
         = Some (Err GIT_ENOTFOUND)
    /\ @git_config_get_bool strtol32_model _ map_backend cfg "y"
         = Err GIT_ENOTFOUND.
Proof.
  intros A. eexists. split; [reflexivity|].
  lazymatch goal with
  | |- git_config_get_long ?cfg _ = _ /\ _ =>
      destruct (@git_config_get_typed_error strtol32_model _ map_backend
                  cfg "y" GIT_ENOTFOUND eq_refl) as (Hl & Hi & Hb & _)
  end.
  exact (conj Hl (conj Hi Hb)).
Defined.

Lemma git_config_get_bool_no_value_witness :
  let A := unbound ({["core.bare" := None]} : gmap string (option string)) in
  exists cfg,
    @build vector_model _ [(A, 1)] plenty = Ok cfg
    /\ @git_config_get_bool strtol32_model _ map_backend cfg "core.bare"
         = Ok 1.
Proof.
  intros A. eexists. split; [reflexivity|].
  lazymatch goal with
  | |- git_config_get_bool ?cfg _ = _ =>
      exact (@git_config_get_bool_no_value strtol32_model _ map_backend
               cfg _ _ "core.bare" eq_refl eq_refl)
  end.
Defined.

(** ** When [git_config__parse_long] succeeds and when it fails *)

Section ParseLong.
Context `{Strtol32}.

Lemma parse_long_unfold (name value : string) :
  git_config__parse_long name value =
    match git__strtol32 value 0 with
    | Err ret => Err ret
    | Ok (num, num_end) =>
        if (deref num_end =? NUL)%char then Ok num
        else match unit_factor (deref num_end) with
             | Some factor => Ok (long_mul num factor)
             | None => Err GIT_EINVALIDTYPE
             end
    end.
Proof.
  unfold git_config__parse_long, unit_factor.
  destruct (git__strtol32 value 0) as [[num num_end]|e]; [|done].
  cbv zeta. destruct (Ascii.eqb _ NUL); [done|].
  by repeat (destruct (orb _ _); [done|]).
Qed.

(** X10: [git_config__parse_long] fails exactly when [git__strtol32]
    fails, with its error, or when the character after the literal is
    neither the end of the string nor a unit suffix, with a type error;
    it succeeds exactly with the literal's value at the end of the
    string, or with that value times the factor of the suffix, as a
    [long], when a unit suffix follows. *)
Theorem git_config__parse_long_cases (name value : string) :
  (forall e,
     git_config__parse_long name value = Err e <->
     git__strtol32 value 0 = Err e
     \/ exists num num_end,
          git__strtol32 value 0 = Ok (num, num_end)
          /\ deref num_end <> NUL
          /\ unit_factor (deref num_end) = None
          /\ e = GIT_EINVALIDTYPE)
  /\ (forall n,
     git_config__parse_long name value = Ok n <->
     exists num num_end,
       git__strtol32 value 0 = Ok (num, num_end)
       /\ (deref num_end = NUL /\ n = num
           \/ deref num_end <> NUL
              /\ exists factor,
                   unit_factor (deref num_end) = Some factor
                   /\ n = long_mul num factor)).
Proof.
  rewrite parse_long_unfold.
  destruct (git__strtol32 value 0) as [[num num_end]|e0] eqn:Hlit.
  - destruct (Ascii.eqb_spec (deref num_end) NUL) as [E|E];
      [|destruct (unit_factor (deref num_end)) as [factor|] eqn:Hf].
    + split; [intros e|intros n]; split.
      * done.
      * intros [?|(? & ? & [= <- <-] & Hn & _)]; done.
      * intros [= <-]. exists num, num_end. auto.
      * intros (? & ? & [= <- <-] & [[_ ->]|[Hn _]]); done.
    + split; [intros e|intros n]; split.
      * done.
      * intros [?|(? & ? & [= <- <-] & _ & Hf' & _)]; congruence.
      * intros [= <-]. exists num, num_end. split; [done|]. right. eauto.
      * intros (? & ? & [= <- <-] & [[? _]|[_ (f' & Hf' & ->)]]); congruence.
    + split; [intros e|intros n]; split.
      * intros [= <-]. right. by exists num, num_end.
      * intros [?|(? & ? & _ & _ & _ & ->)]; done.
      * done.
      * intros (? & ? & [= <- <-] & [[? _]|[_ (f' & Hf' & _)]]); congruence.
  - split; [intros e|intros n]; split.
    + intros [= <-]. by left.
    + intros [[= <-]|(? & ? & ? & _)]; done.
    + done.
    + intros (? & ? & ? & _). done.
Qed.

End ParseLong.

(** ** Decimal numerals *)

Lemma digit_value_char d : 0 <= d <= 9 -> digit_value (digit_char d) = d.
Proof.
  intros Hd.
  assert (d = 0 \/ d = 1 \/ d = 2 \/ d = 3 \/ d = 4 \/ d = 5 \/ d = 6
          \/ d = 7 \/ d = 8 \/ d = 9) as Hc by lia.
  repeat (destruct Hc as [->|Hc]; [reflexivity|]). by subst.
Qed.

Lemma string_app_cons x (a b : string) :
  (String x a ++ b = String x (a ++ b))%string.
Proof. reflexivity. Qed.

Lemma string_app_assoc (a b c : string) :
  ((a ++ b) ++ c = a ++ (b ++ c))%string.
Proof.
  induction a as [|x a IH]; [done|]. by rewrite !string_app_cons, IH.
Qed.

Lemma string_app_length (a b : string) :
  String.length (a ++ b)%string = (String.length a + String.length b)%nat.
Proof.
  induction a as [|x a IH]; [done|]. rewrite string_app_cons. simpl.
  by rewrite IH.
Qed.

Lemma fmt_decimal_acc fuel n acc :
  fmt_decimal fuel n acc = (fmt_decimal fuel n "" ++ acc)%string.
Proof.
  revert n acc. induction fuel as [|fuel IH]; intros n acc; simpl; [done|].
  destruct (n / 10 =? 0); [done|].
  rewrite (IH _ (String _ acc)), (IH _ (String _ "")).
  by rewrite string_app_assoc.
Qed.

(** The digits printed denote the number, as long as the fuel covers
    them. *)
Lemma dec_digits_fmt fuel n acc :
  0 <= n < 10 ^ Z.of_nat fuel ->
  exists k : nat, forall m,
    dec_digits (fmt_decimal fuel n acc) m
      = dec_digits acc (m * 10 ^ Z.of_nat k + n).
Proof.
  revert n acc. induction fuel as [|fuel IH]; intros n acc Hn.
  - exists 0%nat. intros m. simpl in *. f_equal. lia.
  - rewrite Nat2Z.inj_succ, Z.pow_succ_r in Hn by lia.
    assert (Hd : 0 <= n mod 10 <= 9) by (pose proof (Z.mod_pos_bound n 10); lia).
    simpl. destruct (Z.eqb_spec (n / 10) 0) as [E|E].
    + exists 1%nat. intros m. simpl dec_digits.
      rewrite (digit_value_char _ Hd).
      rewrite (proj2 (Z.ltb_lt _ _)) by lia. f_equal.
      change (10 ^ Z.of_nat 1) with 10.
      rewrite (Z.div_mod n 10) at 2 by lia. lia.
    + destruct (IH (n / 10) (String (digit_char (n mod 10)) acc)) as [k Hk].
      { split; [apply Z.div_pos; lia|apply Z.div_lt_upper_bound; lia]. }
      exists (S k). intros m. rewrite Hk. simpl dec_digits.
      rewrite (digit_value_char _ Hd).
      rewrite (proj2 (Z.ltb_lt _ _)) by lia. f_equal.
      rewrite Nat2Z.inj_succ, Z.pow_succ_r by lia.
      rewrite (Z.div_mod n 10) at 3 by lia. lia.
Qed.

Lemma dec_digits_fmt_0 fuel n :
  0 <= n < 10 ^ Z.of_nat fuel ->
  dec_digits (fmt_decimal fuel n "") 0 = Some n.
Proof.
  intros Hn. destruct (dec_digits_fmt fuel n "" Hn) as [k Hk].
  by rewrite Hk.
Qed.

(** A number above zero is printed with a leading digit other than 0;
    zero is printed as the digit 0. *)
Lemma fmt_decimal_head fuel n acc :
  0 < n < 10 ^ Z.of_nat fuel ->
  exists d s, 1 <= d <= 9 /\ fmt_decimal fuel n acc = String (digit_char d) s.
Proof.
  revert n acc. induction fuel as [|fuel IH]; intros n acc Hn.
  - simpl in Hn. lia.
  - rewrite Nat2Z.inj_succ, Z.pow_succ_r in Hn by lia.
    simpl. destruct (Z.eqb_spec (n / 10) 0) as [E|E].
    + exists (n mod 10), acc. split; [|done].
      pose proof (Z.mod_pos_bound n 10). pose proof (Z.div_mod n 10). lia.
    + apply IH.
      assert (0 <= n / 10) by (apply Z.div_pos; lia).
      split; [lia|apply Z.div_lt_upper_bound; lia].
Qed.

Lemma fmt_decimal_length fuel (k : nat) n acc :
  0 <= n < 10 ^ Z.of_nat (S k) ->
  (String.length (fmt_decimal (S fuel) n acc)
     <= S k + String.length acc)%nat.
Proof.
  revert k n acc. induction fuel as [|fuel IH]; intros k n acc Hn.
  - simpl. destruct (n / 10 =? 0); simpl; lia.
  - change (fmt_decimal (S (S fuel)) n acc)
      with (let acc' := String (digit_char (n mod 10)) acc in
            if n / 10 =? 0 then acc' else fmt_decimal (S fuel) (n / 10) acc').
    cbv zeta. destruct (Z.eqb_spec (n / 10) 0) as [E|E]; [simpl; lia|].
    destruct k as [|k].
    { change (10 ^ Z.of_nat 1) with 10 in Hn.
      destruct E. apply Z.div_small. lia. }
    rewrite Nat2Z.inj_succ, Z.pow_succ_r in Hn by lia.
    etrans; [apply (IH k)|simpl; lia].
    split; [apply Z.div_pos; lia|apply Z.div_lt_upper_bound; lia].
Qed.

Lemma substring_all (n : nat) (s : string) :
  (String.length s <= n)%nat -> substring 0 n s = s.
Proof.
  revert n. induction s as [|c s IH]; intros [|n]; simpl; try done; try lia.
  intros Hn. f_equal. apply IH. lia.
Qed.

Lemma decimal_value_digit d s :
  0 <= d <= 9 ->
  decimal_value (String (digit_char d) s) = dec_digits (String (digit_char d) s) 0.
Proof.
  intros Hd.
  assert (d = 0 \/ d = 1 \/ d = 2 \/ d = 3 \/ d = 4 \/ d = 5 \/ d = 6
          \/ d = 7 \/ d = 8 \/ d = 9) as Hc by lia.
  repeat (destruct Hc as [->|Hc]; [reflexivity|]). by subst.
Qed.

Lemma long_magnitude value :
  in_range LONG_BITS value ->
  value = 0
  \/ value < 0 /\ 0 < - value < 10 ^ Z.of_nat 19
  \/ 0 < value < 10 ^ Z.of_nat 19.
Proof.
  unfold in_range, LONG_BITS. simpl Z.sub.
  change (2 ^ 63) with 9223372036854775808.
  change (10 ^ Z.of_nat 19) with 10000000000000000000. lia.
Qed.

Lemma pow10_19_20 n : n < 10 ^ Z.of_nat 19 -> n < 10 ^ Z.of_nat 20.
Proof.
  change (10 ^ Z.of_nat 19) with 10000000000000000000.
  change (10 ^ Z.of_nat 20) with 100000000000000000000. lia.
Qed.

(** The numeral printed for a [long] denotes it. *)
Lemma fmt_ld_denotes (value : Z) :
  in_range LONG_BITS value -> decimal_value (fmt_ld value) = Some value.
Proof.
  intros Hv.
  unfold fmt_ld.
  destruct (long_magnitude value Hv) as [->|[[Hneg Hm]|Hpos]].
  - reflexivity.
  - rewrite (proj2 (Z.ltb_lt value 0) Hneg).
    destruct (fmt_decimal_head 20 (- value) "") as (d & s & Hd & E).
    { split; [lia|apply pow10_19_20; lia]. }
    rewrite E. change (decimal_value (String "-" (String (digit_char d) s)))
      with (Z.opp <$> dec_digits (String (digit_char d) s) 0).
    rewrite <- E, dec_digits_fmt_0 by (split; [lia|apply pow10_19_20; lia]).
    simpl. f_equal. lia.
  - destruct (Z.ltb_spec value 0) as [?|_]; [lia|].
    destruct (fmt_decimal_head 20 value "") as (d & s & Hd & E).
    { split; [lia|apply pow10_19_20; lia]. }
    rewrite E, decimal_value_digit by lia. rewrite <- E.
    apply dec_digits_fmt_0. split; [lia|apply pow10_19_20; lia].
Qed.

Lemma snprintf_ld_fits_aux (value : Z) :
  in_range LONG_BITS value ->
  (String.length (fmt_ld value) <= 20)%nat
  /\ snprintf_ld 32 value = fmt_ld value.
Proof.
  intros Hv.
  assert (Hlen : (String.length (fmt_ld value) <= 20)%nat).
  { unfold fmt_ld. destruct (Z.ltb_spec value 0) as [Hneg|Hpos].
    - pose proof (fmt_decimal_length 19 18 (- value) "") as Hl.
      simpl String.length in *. apply le_n_S. etrans; [apply Hl|lia].
      destruct (long_magnitude value Hv) as [?|[?|?]]; lia.
    - pose proof (fmt_decimal_length 19 18 value "") as Hl.
      simpl String.length in *. etrans; [apply Hl|lia].
      destruct (long_magnitude value Hv) as [?|[?|?]]; lia. }
  split; [done|]. unfold snprintf_ld. apply substring_all. simpl. lia.
Qed.



(** ** Integers written and read back *)

Lemma strtol_digits_dec s acc v ndig :
  dec_digits s acc = Some v ->
  strtol_digits 10 s acc ndig = (v, (ndig + String.length s)%nat, "").
Proof.
  revert acc ndig. induction s as [|c s IH]; intros acc ndig; simpl.
  - intros [= <-]. by rewrite Nat.add_0_r.
  - destruct (digit_value c <? 10); [|done].
    intros Hd. rewrite (IH _ (S ndig) Hd). f_equal. f_equal. lia.
Qed.

Lemma strtol_head_digit d s :
  1 <= d <= 9 ->
  strtol_sign (String (digit_char d) s) = (false, String (digit_char d) s)
  /\ strtol_base (String (digit_char d) s) 0 = (10, String (digit_char d) s).
Proof.
  intros Hd.
  assert (d = 1 \/ d = 2 \/ d = 3 \/ d = 4 \/ d = 5 \/ d = 6
          \/ d = 7 \/ d = 8 \/ d = 9) as Hc by lia.
  repeat (destruct Hc as [->|Hc]; [by split|]). by subst.
Qed.

(** The model of [git__strtol32] reads the decimal numeral of an [int]
    back. *)
Lemma strtol32_model_reads_decimal : @reads_decimal strtol32_model.
Proof.
  intros value Hv. unfold git__strtol32.
  assert (Hl : in_range LONG_BITS value).
  { unfold in_range, INT_BITS, LONG_BITS in *. simpl Z.sub in *.
    change (2 ^ 31) with 2147483648 in Hv.
    change (2 ^ 63) with 9223372036854775808. lia. }
  assert (Hr : (- 2 ^ 63 <=? value) && (value <? 2 ^ 63) = true).
  { unfold in_range, LONG_BITS in Hl. simpl Z.sub in Hl.
    apply andb_true_intro. split; [apply Z.leb_le|apply Z.ltb_lt]; lia. }
  unfold fmt_ld.
  destruct (long_magnitude value Hl) as [->|[[Hneg Hm]|Hpos]].
  - reflexivity.
  - rewrite (proj2 (Z.ltb_lt value 0) Hneg).
    destruct (fmt_decimal_head 20 (- value) "") as (d & s & Hd & E).
    { split; [lia|apply pow10_19_20; lia]. }
    pose proof (dec_digits_fmt_0 20 (- value)) as Hdec.
    rewrite E in *. destruct (strtol_head_digit d s Hd) as [_ Hb].
    unfold strtol32_model.
    change (strtol_sign (String "-" (String (digit_char d) s)))
      with (true, String (digit_char d) s).
    cbv iota. rewrite Hb.
    rewrite (strtol_digits_dec _ 0 (- value) 0)
      by (apply Hdec; split; [lia|apply pow10_19_20; lia]).
    simpl String.length. simpl Nat.add. cbv iota.
    by rewrite Z.opp_involutive, Hr.
  - destruct (Z.ltb_spec value 0) as [?|_]; [lia|].
    destruct (fmt_decimal_head 20 value "") as (d & s & Hd & E).
    { split; [lia|apply pow10_19_20; lia]. }
    pose proof (dec_digits_fmt_0 20 value) as Hdec.
    rewrite E in *. destruct (strtol_head_digit d s Hd) as [Hs Hb].
    unfold strtol32_model. rewrite Hs, Hb.
    rewrite (strtol_digits_dec _ 0 value 0)
      by (apply Hdec; split; [lia|apply pow10_19_20; lia]).
    simpl String.length. simpl Nat.add. cbv iota.
    by rewrite Hr.
Qed.

Section Integers.
Context `{Hlit : Strtol32} {B : Type} `{Hspec : ConfigFileSpec B}.
Implicit Types (cfg : git_config B).

(** X12: where [git__strtol32] reads decimal numerals, an [int] that
    [git_config_set_int] reports as stored is the one
    [git_config_get_int] and [git_config_get_long] return for that name
    afterwards. *)
Theorem git_config_set_get_int cfg cfg' (name : string) (value : Z) :
  reads_decimal ->
  in_range INT_BITS value ->
  git_config_set_int cfg name value = (OK, cfg') ->
  git_config_get_int cfg' name = Some (Ok value)
  /\ git_config_get_long cfg' name = Some (Ok value).
Proof.
  intros Hread Hv Hset.
  assert (Hl : in_range LONG_BITS value).
  { unfold in_range, INT_BITS, LONG_BITS in *. simpl Z.sub in *.
    change (2 ^ 31) with 2147483648 in Hv.
    change (2 ^ 63) with 9223372036854775808. lia. }
  unfold git_config_set_int, git_config_set_long in Hset. cbv zeta in Hset.
  destruct (snprintf_ld_fits_aux value Hl) as [_ Hs]. rewrite Hs in Hset.
  apply git_config_set_get_string_aux in Hset.
  unfold git_config_get_int, git_config_get_long. rewrite Hset.
  assert (Hp : git_config__parse_long name (fmt_ld value) = Ok value).
  { unfold git_config__parse_long. by rewrite (Hread value Hv). }
  unfold git_config__parse_int. rewrite Hp.
  by rewrite (wrap_int_in_range value Hv : int_of_long value = value).
Qed.

End Integers.

Lemma git_config_set_get_int_witness :
  let A := unbound (∅ : gmap string (option string)) in
  exists cfg cfg',
    @build vector_model _ [(A, 1)] plenty = Ok cfg
    /\ @git_config_set_int _ map_backend cfg "core.compression" (-1)
         = (OK, cfg')
    /\ @git_config_get_int strtol32_model _ map_backend cfg'
         "core.compression" = Some (Ok (-1)).
Proof.
  intros A. do 2 eexists. split; [reflexivity|].
  lazymatch goal with
  | |- ?L = (OK, ?c) /\ _ => assert (Hset : L = (OK, c)) by reflexivity
  end.
  split; [exact Hset|].
  refine (proj1 (@git_config_set_get_int strtol32_model _ map_backend
                   map_backend_spec _ _ _ (-1) strtol32_model_reads_decimal
                   _ Hset)).
  unfold in_range, INT_BITS. simpl Z.sub. lia.
Defined.

(** ** The keys an iteration visits *)

Lemma foreach_keys_logged {D} (fn : callback D) keys log data :
  exists visited,
    foreach_keys (logged fn) keys (log, data)
      = ((foreach_keys fn keys data).1,
         ((log ++ visited)%list, (foreach_keys fn keys data).2))
    /\ visited `prefix_of` keys
    /\ ((foreach_keys fn keys data).1 = 0 -> visited = keys).
Proof.
  revert log data. induction keys as [|k keys IH]; intros log data.
  - exists []. simpl. rewrite app_nil_r. repeat split. by exists [].
  - simpl. unfold logged at 1. simpl.
    destruct (fn k data) as [ret data1].
    destruct (Z.eqb_spec ret 0) as [->|Hret].
    + destruct (IH (log ++ [k])%list data1) as (visited & E & Hpre & Hall).
      exists (k :: visited). rewrite E. rewrite <- (assoc_L (++)). simpl.
      split; [done|]. split; [by apply prefix_cons|].
      intros Hz. by rewrite (Hall Hz).
    + exists [k]. simpl. split; [done|].
      split; [apply prefix_cons, prefix_nil|done].
Qed.

Section Visited.
Context {B : Type} `{Hspec : ConfigFileSpec B}.

(** X13: the names on which [git_config_foreach] has invoked the
    callback, in order, are a prefix of the keys of the backends taken in
    the order of the sequence: no key is skipped or visited twice.  When
    the result is zero every key was visited. *)
Theorem git_config_foreach_prefix {D} (cfg : git_config B)
    (fn : callback D) (data : D) :
  let run := git_config_foreach cfg (logged fn) ([], data) in
  run.2.1 `prefix_of` all_keys cfg
  /\ (run.1 = 0 -> run.2.1 = all_keys cfg)
  /\ git_config_foreach cfg fn data = (run.1, run.2.2).
Proof.
  intros run. unfold run. rewrite !git_config_foreach_keys.
  destruct (foreach_keys_logged fn (all_keys cfg) [] data)
    as (visited & -> & Hpre & Hall).
  simpl. repeat split; [done|done|].
  by destruct (foreach_keys fn (all_keys cfg) data).
Qed.

End Visited.

Lemma git_config_foreach_prefix_witness :
  let top := unbound ({["stop" := Some "1"]} : gmap string (option string)) in
  let low := unbound ({["never" := Some "2"]} : gmap string (option string)) in
  exists cfg, @build vector_model _ [(low, 1); (top, 2)] plenty = Ok cfg
    /\ (@git_config_foreach _ map_backend _ cfg (logged (stop_at "stop"))
          ([], 0)).2.1 `prefix_of` ["stop"; "never"].
Proof.
  intros top low. eexists. split; [reflexivity|].
  lazymatch goal with
  | |- (git_config_foreach ?cfg _ _).2.1 `prefix_of` _ =>
      exact (proj1 (@git_config_foreach_prefix _ map_backend
                      map_backend_spec _ cfg (stop_at "stop") 0))
  end.
Defined.

(** ** Teardown *)

Lemma freed_backends_free {B} (cfg : git_config B) :
  freed_backends (git_config_free cfg) = (backend ∘ file) <$> files cfg.
Proof.
  unfold git_config_free, freed_backends.
  rewrite omap_app. simpl. rewrite app_nil_r.
  induction (files cfg) as [|internal v IH]; [done|].
  csimpl. f_equal. exact IH.
Qed.

Section Teardown.
Context `{Hvec : GitVectorSpec} {B : Type}.
Implicit Types (cfg : git_config B) (f : git_config_file B).

(** X14: the teardown of a store calls the [free] of every backend it
    holds, once each.  After a successful registration these are the
    backends it would have freed before and the new one; after a
    registration that fails the teardown is what it was, so the backend
    is left to the caller. *)
Theorem git_config_free_registered cfg cfg' f f' (prio : Z)
    (h h' : allocator) (r : status) :
  git_config_add_file cfg f prio h = (r, cfg', f', h') ->
  freed_backends (git_config_free cfg) = (backend ∘ file) <$> files cfg
  /\ match r with
     | Ok _ =>
         freed_backends (git_config_free cfg')
           ≡ₚ backend f :: freed_backends (git_config_free cfg)
     | Err _ => git_config_free cfg' = git_config_free cfg
     end.
Proof.
  intros Hadd. split; [apply freed_backends_free|].
  destruct r as [[]|e].
  - rewrite !freed_backends_free.
    pose proof (add_file_registered _ _ _ _ _ _ _ Hadd) as Hreg.
    apply (fmap_Permutation snd) in Hreg.
    rewrite fmap_cons, <- !list_fmap_compose in Hreg. exact Hreg.
  - revert Hadd. unfold git_config_add_file.
    destruct (git__malloc h) as [[internal|] h1].
    + destruct (git_vector_insert _ _ h1) as [[v|e'] h2]; [done|].
      by intros [= _ <- _ _].
    + by intros [= _ <- _ _].
Qed.

End Teardown.

Lemma git_config_free_registered_witness :
  let A := unbound ({["x" := Some "1"]} : gmap string (option string)) in
  let B := unbound (∅ : gmap string (option string)) in
  exists cfg cfg' f' h',
    @build vector_model _ [(A, 1)] plenty = Ok cfg
    /\ @git_config_add_file vector_model _ cfg B 2 plenty
         = (OK, cfg', f', h')
    /\ freed_backends (git_config_free cfg') ≡ₚ [∅; {["x" := Some "1"]}].
Proof.
  intros A B. do 4 eexists. split; [reflexivity|].
  lazymatch goal with
  | |- ?L = (OK, ?c, ?f, ?h) /\ _ =>
      assert (Hadd : L = (OK, c, f, h)) by reflexivity
  end.
  split; [exact Hadd|].
  exact (proj2 (@git_config_free_registered vector_model vector_model_spec
                  _ _ _ _ _ _ _ _ _ Hadd)).
Defined.

(** ** A new store *)

Section Fresh.
Context `{Hvec : GitVectorSpec} {B : Type} `{ConfigFile B}.

(** X15: [git_config_new] fails only for lack of memory, and the store
    it returns holds no backend: reads and writes on it fail with an
    invalid-argument error, an iteration succeeds without a call, and
    the teardown frees no backend. *)
Theorem git_config_new_fresh (h : allocator) :
  match git_config_new h with
  | (Err e, _) => e = GIT_ENOMEM
  | (Ok cfg, _) =>
      files cfg = []
      /\ (forall name, git_config_get_string cfg name = Err GIT_EINVALIDARGS)
      /\ (forall name value,
            git_config_set_string cfg name value = (Err GIT_EINVALIDARGS, cfg))
      /\ (forall D (fn : callback D) data,
            git_config_foreach cfg (logged fn) ([], data)
              = (GIT_SUCCESS, ([], data)))
      /\ freed_backends (git_config_free cfg) = []
  end.
Proof.
  destruct (git_config_new h) as [[cfg|e] h'] eqn:Hnew.
  - pose proof (git_config_new_empty _ _ _ Hnew) as E.
    split; [done|]. split; [|split; [|split]].
    + intros name. by apply get_string_nil.
    + intros name value. by apply set_string_nil.
    + intros D fn data. unfold git_config_foreach. by rewrite E.
    + by rewrite freed_backends_free, E.
  - revert Hnew. unfold git_config_new.
    destruct (git__malloc h) as [[p|] h1].
    + destruct (git_vector_init h1) as [[v|e'] h2]; [done|]. by intros [= <- _].
    + by intros [= <- _].
Qed.

End Fresh.

Lemma git_config_new_fresh_witness :
  (@git_config_new vector_model (gmap string (option string))
     {| brk := 4%N; outcomes := [true; false] |}).1 = Err GIT_ENOMEM
  /\ exists cfg,
       (@git_config_new vector_model (gmap string (option string)) plenty).1
         = Ok cfg
       /\ @git_config_get_string _ map_backend cfg "x" = Err GIT_EINVALIDARGS.
Proof.
  split.
  - pose proof (@git_config_new_fresh vector_model vector_model_spec
                  _ map_backend {| brk := 4%N; outcomes := [true; false] |})
      as Hf.
    exact (f_equal Err Hf).
  - pose proof (@git_config_new_fresh vector_model vector_model_spec
                  _ map_backend plenty) as Hf.
    eexists. split; [reflexivity|].
    exact (proj1 (proj2 Hf) "x").
Defined.

(** ** The conversion to [int] *)

Section ParseInt.
Context `{Strtol32}.

(** X16: [git_config__parse_int] fails exactly where
    [git_config__parse_long] fails, with the same error; where that one
    succeeds it returns a number that fits an [int] and differs from the
    [long] by a multiple of 2^32: the same number when the [long] fits
    an [int], its low 32 bits otherwise. *)
Theorem git_config__parse_int_truncates (name value : string) :
  (forall e, git_config__parse_int name value = Err e <->
             git_config__parse_long name value = Err e)
  /\ (forall n, git_config__parse_long name value = Ok n ->
        exists m, git_config__parse_int name value = Ok m
          /\ in_range INT_BITS m
          /\ (m - n) mod 2 ^ 32 = 0
          /\ (in_range INT_BITS n -> m = n)).
Proof.
  unfold git_config__parse_int.
  destruct (git_config__parse_long name value) as [tmp|ret].
  - split; [done|]. intros n [= <-]. exists (int_of_long tmp).
    split; [done|]. unfold int_of_long. split; [|split].
    + unfold wrap, in_range, INT_BITS.
      change (2 ^ (32 - 1)) with 2147483648.
      change (2 ^ 32) with 4294967296.
      pose proof (Z.mod_pos_bound (tmp + 2147483648) 4294967296). lia.
    + unfold wrap, INT_BITS.
      change (2 ^ (32 - 1)) with 2147483648.
      change (2 ^ 32) with 4294967296.
      Z.div_mod_to_equations. lia.
    + apply wrap_int_in_range.
  - split; [done|]. done.
Qed.

End ParseInt.

(** ** What [git_config_set_long] stores *)

Section SetLong.
Context {B : Type} `{Hspec : ConfigFileSpec B}.

(** X17: a [long] that [git_config_set_long] reports as stored is held
    by the backend at index 0 as a decimal numeral of at most 20
    characters that denotes it. *)
Theorem git_config_set_long_stored (cfg cfg' : git_config B)
    (name : string) (value : Z) :
  in_range LONG_BITS value ->
  git_config_set_long cfg name value = (OK, cfg') ->
  exists s,
    git_config_get_string cfg' name = Ok (Some s)
    /\ decimal_value s = Some value
    /\ (String.length s <= 20)%nat.
Proof.
  intros Hv Hset. exists (snprintf_ld 32 value).
  unfold git_config_set_long in Hset. cbv zeta in Hset.
  split; [by apply (git_config_set_get_string_aux cfg)|].
  destruct (snprintf_ld_fits_aux value Hv) as [Hlen Hall].
  rewrite Hall. split; [by apply fmt_ld_denotes|done].
Qed.

End SetLong.

Lemma git_config_set_long_stored_witness :
  let A := unbound (∅ : gmap string (option string)) in
  exists cfg,
    @build vector_model _ [(A, 1)] plenty = Ok cfg
    /\ exists cfg' s,
         @git_config_set_long _ map_backend cfg "pack.limit" (2 ^ 40)
           = (OK, cfg')
         /\ @git_config_get_string _ map_backend cfg' "pack.limit"
              = Ok (Some s)
         /\ decimal_value s = Some (2 ^ 40).
Proof.
  intros A.
  assert (Hr : in_range LONG_BITS (2 ^ 40)).
  { unfold in_range, LONG_BITS. simpl Z.sub. lia. }
  eexists. split; [reflexivity|]. eexists.
  lazymatch goal with
  | |- exists s, ?L = (OK, ?c) /\ _ =>
      assert (Hset : L = (OK, c)) by reflexivity
  end.
  destruct (@git_config_set_long_stored _ map_backend map_backend_spec
              _ _ "pack.limit" (2 ^ 40) Hr Hset) as (s & Hget & Hd & _).
  exists s. split; [exact Hset|]. by split.
Defined.
